(** * Web-Scraper-Desktop: the harvesting orchestrator

    A shallow embedding of the scraper engine (ScraperEngine.ts), the CSV
    helpers (CsvUtils.ts), the file helpers (FileUtils.ts), the popup bypass
    (Bypass.ts), the logo capture (LogoCapture.ts) and the AI fallback
    (AISmartScrape.ts), followed by the properties of the engine.

    Conventions.
    - JavaScript strings are [string]s; whitespace is the ASCII whitespace.
    - A JavaScript object is an association list in insertion order.
    - [Map<string, ScrapeResult>] is a [gmap string ScrapeResult]; the map of
      unique URLs, whose iteration order the scheduler depends on, is an
      association list.
    - The browser, the page and the AI service are capabilities: what they
      answer while one URL is processed is given by a [Visit] record, and
      every call the engine makes is recorded in a trace of [Event]s.
    - Node's [path.join] is an interface, the class [Path].
    - A cell of a row is a text, null (an empty cell of the input, which
      the parser's dynamic typing reads as null) or missing. The numbers
      and booleans that dynamic typing makes of other cells are not
      modelled. [BaseName] is read as the cell is; [URL] and the selectors
      are read as texts, an empty or missing cell as the empty text. *)

From Stdlib Require Import String Ascii List ZArith Lia.
From stdpp Require Import base option list gmap strings pretty.

Local Open Scope Z_scope.
Local Open Scope nat_scope.

(** ** JavaScript strings *)

Module Js.

(** [!s] for a string: the empty string is the only falsy one. *)
Definition truthy (s : string) : bool :=
  match s with "" => false | String _ _ => true end.

(** [a || b] on strings. *)
Definition or_else (a b : string) : string := if truthy a then a else b.

Fixpoint trimStart (s : string) : string :=
  match s with
  | "" => ""
  | String c s' => if Ascii.is_space c then trimStart s' else s
  end.

Fixpoint trimEnd (s : string) : string :=
  match s with
  | "" => ""
  | String c s' =>
      match trimEnd s' with
      | "" => if Ascii.is_space c then "" else String c ""
      | t => String c t
      end
  end.

(** [s.trim()] *)
Definition trim (s : string) : string := trimEnd (trimStart s).

(** [s.includes(c)] for a one-character needle. *)
Fixpoint includes (c : ascii) (s : string) : bool :=
  match s with
  | "" => false
  | String a s' => if decide (a = c) then true else includes c s'
  end.

(** [s.split(c)] for a one-character separator: never the empty list. *)
Fixpoint split (c : ascii) (s : string) : list string :=
  match s with
  | "" => [""]
  | String a s' =>
      if decide (a = c) then "" :: split c s'
      else match split c s' with
           | [] => [String a ""]
           | p :: ps => String a p :: ps
           end
  end.

(** [s.split(c, limit)]: all the pieces are cut first, then the first
    [limit] of them are kept; what follows is dropped, not left in the last
    piece. *)
Definition split_limit (c : ascii) (limit : nat) (s : string) : list string :=
  take limit (split c s).

(** [pieces.join(c)] *)
Fixpoint join (c : ascii) (pieces : list string) : string :=
  match pieces with
  | [] => ""
  | [p] => p
  | p :: ps => p +:+ String c (join c ps)
  end.

(** [s.substring(0, n)] *)
Fixpoint substring0 (n : nat) (s : string) : string :=
  match n, s with
  | S n', String c s' => String c (substring0 n' s')
  | _, _ => ""
  end.

(** [s.replace(/c/g, d)] for a class of characters [cls]. *)
Fixpoint replace_class (cls : ascii → bool) (d : ascii) (s : string) : string :=
  match s with
  | "" => ""
  | String a s' => String (if cls a then d else a) (replace_class cls d s')
  end.

(** A thrown value: [name] and [message] of an [Error]. *)
Record Error := mkError { name : string; message : string }.

(** [`${error}`], that is [Error.prototype.toString]. *)
Definition error_to_string (e : Error) : string :=
  if truthy (name e)
  then (if truthy (message e) then name e +:+ ": " +:+ message e else name e)
  else message e.

(** [new Error(msg)] *)
Definition new_Error (msg : string) : Error := mkError "Error" msg.

(** A JavaScript value as the engine meets them in objects. *)
Inductive Value := Str (s : string) | Null | Undefined.

(** [v || ''] *)
Definition or_empty (v : Value) : string :=
  match v with Str s => s | Null | Undefined => "" end.

(** [`${v}`]: the text of a value in a template literal. *)
Definition to_text (v : Value) : string :=
  match v with Str s => s | Null => "null" | Undefined => "undefined" end.

(** The TypeError of [v.method(...)] when [v] is null or undefined. *)
Definition no_property (method : string) (v : Value) : Error :=
  mkError "TypeError"
          ("Cannot read properties of " +:+ to_text v
           +:+ " (reading '" +:+ method +:+ "')").

(** An object: keys in insertion order, each key once. *)
Definition Obj := list (string * Value).

(** [o[k]]; [undefined] when the key is missing. *)
Fixpoint get (k : string) (o : Obj) : Value :=
  match o with
  | [] => Undefined
  | (k', v) :: o' => if decide (k' = k) then v else get k o'
  end.

(** [o[k] = v]: an existing key keeps its place. *)
Fixpoint set (k : string) (v : Value) (o : Obj) : Obj :=
  match o with
  | [] => [(k, v)]
  | (k', v') :: o' => if decide (k' = k) then (k, v) :: o' else (k', v') :: set k v o'
  end.

(** [{...a, ...b}] *)
Definition spread (a b : Obj) : Obj :=
  foldl (λ o kv, set kv.1 kv.2 o) a b.

(** [Object.keys(o)] *)
Definition keys (o : Obj) : list string := o.*1.

End Js.

(** ** types.ts *)

Inductive LogLevel := INFO | WARN | ERROR_LEVEL.

Record LogMessage := mkLogMessage {
  level : LogLevel;
  message : string;
  timestamp : Z;
}.

Record ProgressUpdate := mkProgressUpdate {
  processed : nat;
  total : nat;
  status : string;
  logs : list LogMessage;
}.

(** ** ScraperEngine: the reporter *)

(** The mutable fields of a [ScraperEngine] that the reporter reads and
    writes, and [sent], the updates handed to [ipcSender] so far. *)
Record Engine := mkEngine {
  logMessages : list LogMessage;
  running : bool;
  totalUrls : nat;
  processedUrls : nat;
  errorCount : nat;
  sent : list ProgressUpdate;
}.

(** The fields as the class initialises them. *)
Definition new_engine : Engine := mkEngine [] false 0 0 0 [].

(** [arr.slice(-n)] *)
Definition slice_last {A} (n : nat) (l : list A) : list A :=
  drop (length l - n) l.

(** [sendProgress(status)]; [None] stands for the omitted argument. *)
Definition sendProgress (status : option string) (e : Engine) : Engine :=
  let status :=
    match status with
    | Some s => s
    | None => if running e then "Running..." else "Idle"
    end in
  let update :=
    mkProgressUpdate (processedUrls e) (totalUrls e) status
                     (slice_last 50 (logMessages e)) in
  mkEngine (logMessages e) (running e) (totalUrls e) (processedUrls e)
           (errorCount e) (sent e ++ [update]).

(** [detail ? `${message} (${detail})` : message] *)
Definition fullMessage (msg : string) (detail : option string) : string :=
  match detail with
  | Some d => if Js.truthy d then msg +:+ " (" +:+ d +:+ ")" else msg
  | None => msg
  end.

(** [log(level, message, detail?)]; [now] is what [Date.now()] answers. *)
Definition log (lvl : LogLevel) (msg : string) (detail : option string)
    (now : Z) (e : Engine) : Engine :=
  let pushed := logMessages e ++ [mkLogMessage lvl (fullMessage msg detail) now] in
  let kept := if decide (500 < length pushed) then drop 100 pushed else pushed in
  sendProgress None
    (mkEngine kept (running e) (totalUrls e) (processedUrls e)
              (errorCount e) (sent e)).

(** One call of [log]. *)
Record LogCall := mkLogCall {
  call_level : LogLevel;
  call_message : string;
  call_detail : option string;
  call_now : Z;
}.

Definition log_call (e : Engine) (c : LogCall) : Engine :=
  log (call_level c) (call_message c) (call_detail c) (call_now c) e.

(** The entry that a call appends. *)
Definition log_entry (c : LogCall) : LogMessage :=
  mkLogMessage (call_level c) (fullMessage (call_message c) (call_detail c))
               (call_now c).

(** A sequence of calls of [log], oldest first. *)
Definition log_all (calls : list LogCall) (e : Engine) : Engine :=
  foldl log_call e calls.

(** ** Results and rows (types.ts) *)

Inductive ScrapeStatus := SUCCESS | ERROR | SKIPPED | DUPLICATE.

Global Instance ScrapeStatus_eq_dec : EqDecision ScrapeStatus.
Proof. solve_decision. Defined.

(** The text of a status, as it is written to the output table. *)
Definition status_name (s : ScrapeStatus) : string :=
  match s with
  | SUCCESS => "SUCCESS"
  | ERROR => "ERROR"
  | SKIPPED => "SKIPPED"
  | DUPLICATE => "DUPLICATE"
  end.

Record ScrapeResult := mkScrapeResult {
  ScreenshotFile : string;
  LogoFile : string;
  ScrapedData : string;
  Status : ScrapeStatus;
  ErrorMessage : string;
}.

(** [Map<string, ScrapeResult>], keyed by the unique URL. *)
Abbreviation ScrapeMap := (gmap string ScrapeResult).

(** An input row is an object. Its type says that [BaseName] and [URL]
    are strings and that the selectors are strings or missing, but a row
    holds its cells as the parser gave them: an empty cell is null. *)
Definition InputRow := Js.Obj.

(** [row.BaseName], as the cell is: the engine uses it as a text without
    a check. *)
Definition BaseName (row : InputRow) : Js.Value := Js.get "BaseName" row.
(** [row.URL], read as a text: an empty or missing cell is falsy like the
    empty text, and the engine sets no map entry for it. *)
Definition URL (row : InputRow) : string := Js.or_empty (Js.get "URL" row).
(** The selectors are only read on the left of [||], where a missing
    selector and an empty one behave alike. *)
Definition CSSSelector (row : InputRow) : string := Js.or_empty (Js.get "CSSSelector" row).
Definition XPathSelector (row : InputRow) : string := Js.or_empty (Js.get "XPathSelector" row).

Record Selectors := mkSelectors { css : string; xpath : string }.

Record ScraperConfig := mkScraperConfig {
  inputCsvPath : string;
  outputDirPath : string;
  imageSubFolder : string;
  selectors : Selectors;
  useAISmartScrape : bool;
  concurrency : nat;
  aiApiKey : string;
}.

(** ** Awaited capabilities *)

(** What an awaited call gives: a value, or a thrown error. *)
Inductive Attempt (A : Type) := Done (a : A) | Fails (e : Js.Error).
Global Arguments Done {A} a.
Global Arguments Fails {A} e.

(** ** CsvUtils.ts *)

(** What [Papa.parse] answers: the rows under their headers and the parse
    errors. Reading the file and the CSV syntax belong to the library. *)
Record ParseResult := mkParseResult {
  data : list InputRow;
  errors : list string;
}.

(** The row literal of [parseInputCsv]: the four normalised fields, then
    [...row], which writes the row's own columns over them. *)
Definition normaliseRow (row : InputRow) : InputRow :=
  Js.spread
    [("BaseName", Js.Str (Js.or_else (Js.or_empty (BaseName row)) "untitled"));
     ("URL", Js.Str (Js.or_else (URL row) ""));
     ("CSSSelector", if Js.truthy (CSSSelector row)
                     then Js.Str (CSSSelector row) else Js.Undefined);
     ("XPathSelector", if Js.truthy (XPathSelector row)
                       then Js.Str (XPathSelector row) else Js.Undefined)]
    row.

(** [Map<string, InputRow>] in insertion order. *)
Definition UniqueUrls := list (string * InputRow).

Definition uniqueUrls_has (url : string) (m : UniqueUrls) : bool :=
  bool_decide (url ∈ m.*1).

(** The deduplication loop of [parseInputCsv]. *)
Definition collectUniqueUrls (inputRows : list InputRow) : UniqueUrls :=
  foldl (λ uniqueUrls row,
           if Js.truthy (URL row) && negb (uniqueUrls_has (URL row) uniqueUrls)
           then uniqueUrls ++ [(URL row, row)]
           else uniqueUrls)
        [] inputRows.

(** [parseInputCsv], from what reading and parsing the file gave. *)
Definition parseInputCsv (file : Attempt ParseResult)
    : Attempt (UniqueUrls * list InputRow) :=
  let wrap (msg : string) : Attempt (UniqueUrls * list InputRow) :=
    Fails (Js.new_Error ("Could not process CSV file: " +:+ msg)) in
  match file with
  | Fails e => wrap (Js.message e)
  | Done parseResult =>
      match errors parseResult with
      | first :: _ => wrap ("CSV Parsing Error: " +:+ first)
      | [] =>
          let inputRows := normaliseRow <$> data parseResult in
          Done (collectUniqueUrls inputRows, inputRows)
      end
  end.

(** The five result columns, in the order [generateOutputCsv] adds them. *)
Definition RESULT_HEADERS : list string :=
  ["ScreenshotFile"; "LogoFile"; "ScrapedData"; "Status"; "ErrorMessage"].

(** [allHeaders.add(header)] on a [Set] kept in insertion order. *)
Definition add_header (allHeaders : list string) (header : string) : list string :=
  if bool_decide (header ∈ allHeaders) then allHeaders else allHeaders ++ [header].

Definition finalHeaders (inputRows : list InputRow) : list string :=
  foldl add_header
        (foldl (λ allHeaders row, foldl add_header allHeaders (Js.keys row))
               [] inputRows)
        RESULT_HEADERS.

(** A [ScrapeResult] as the object that is spread into the output row. *)
Definition result_obj (r : ScrapeResult) : Js.Obj :=
  [("ScreenshotFile", Js.Str (ScreenshotFile r));
   ("LogoFile", Js.Str (LogoFile r));
   ("ScrapedData", Js.Str (ScrapedData r));
   ("Status", Js.Str (status_name (Status r)));
   ("ErrorMessage", Js.Str (ErrorMessage r))].

Definition MISSING_RESULT : Js.Obj :=
  [("Status", Js.Str "ERROR");
   ("ErrorMessage", Js.Str "Internal error: URL not found in results map.")].

(** A completed output row: one text per final header. *)
Definition OutputRow := list (string * string).

(** [completeRow[header]] *)
Fixpoint cell (header : string) (row : OutputRow) : string :=
  match row with
  | [] => ""
  | (h, v) :: rest => if decide (h = header) then v else cell header rest
  end.

(** The body of the row loop of [generateOutputCsv]. *)
Definition outputRow (headers : list string) (scrapeResults : ScrapeMap)
    (row : InputRow) : OutputRow :=
  let outputRow := Js.spread [] row in
  let outputRow :=
    match scrapeResults !! URL row with
    | Some result => Js.spread outputRow (result_obj result)
    | None => Js.spread outputRow MISSING_RESULT
    end in
  (λ header, (header, Js.or_empty (Js.get header outputRow))) <$> headers.

(** [generateOutputCsv]: the rows handed to [Papa.unparse]. *)
Definition generateOutputCsv (inputRows : list InputRow)
    (scrapeResults : ScrapeMap) : list OutputRow :=
  outputRow (finalHeaders inputRows) scrapeResults <$> inputRows.

(** ** ScraperEngine.start, step 4: results mapped back to the rows *)

(** The first loop: every scraped entry is set in the final map. *)
Definition copyResults (scrapeResults : ScrapeMap) : ScrapeMap :=
  map_fold (λ url result finalScrapeMap, <[url := result]> finalScrapeMap)
           ∅ scrapeResults.

Definition DUPLICATE_NOTE : string := "Result shared from first instance of this URL.".

(** [{...existingResult, Status: 'DUPLICATE', ErrorMessage: ...}] *)
Definition asDuplicate (existingResult : ScrapeResult) : ScrapeResult :=
  mkScrapeResult (ScreenshotFile existingResult) (LogoFile existingResult)
                 (ScrapedData existingResult) DUPLICATE DUPLICATE_NOTE.

(** The callback of [inputRows.forEach((row, index) => ...)]. *)
Definition remapRow (scrapeResults : ScrapeMap) (finalScrapeMap : ScrapeMap)
    (index : nat) (row : InputRow) : ScrapeMap :=
  if bool_decide (index = 0) || negb (bool_decide (is_Some (finalScrapeMap !! URL row)))
  then finalScrapeMap
  else match scrapeResults !! URL row with
       | Some existingResult => <[URL row := asDuplicate existingResult]> finalScrapeMap
       | None => finalScrapeMap
       end.

Fixpoint remapFrom (scrapeResults : ScrapeMap) (index : nat)
    (inputRows : list InputRow) (finalScrapeMap : ScrapeMap) : ScrapeMap :=
  match inputRows with
  | [] => finalScrapeMap
  | row :: rest =>
      remapFrom scrapeResults (S index) rest
                (remapRow scrapeResults finalScrapeMap index row)
  end.

(** Step 4 as a whole. *)
Definition mapResultsBack (inputRows : list InputRow)
    (scrapeResults : ScrapeMap) : ScrapeMap :=
  remapFrom scrapeResults 0 inputRows (copyResults scrapeResults).

(** ** More of JavaScript: text search and [JSON.stringify] *)

Module Json.

Definition dquote : ascii := "034"%char.
Definition backslash : ascii := "092"%char.

(** A text between double quotes. *)
Definition quoted (s : string) : string :=
  String dquote (s +:+ String dquote "").

(** [s.includes(needle)] *)
Fixpoint includes_text (needle s : string) : bool :=
  String.prefix needle s ||
  match s with
  | "" => false
  | String _ s' => includes_text needle s'
  end.

Definition hex_digit (n : nat) : ascii :=
  nth n ["0"; "1"; "2"; "3"; "4"; "5"; "6"; "7"; "8"; "9";
         "a"; "b"; "c"; "d"; "e"; "f"]%char "0"%char.

(** One character inside a JSON string. *)
Definition escape_char (c : ascii) : string :=
  if decide (c = dquote) then String backslash (String dquote "")
  else if decide (c = backslash) then String backslash (String backslash "")
  else
    let n := nat_of_ascii c in
    if decide (n = 8) then String backslash "b"
    else if decide (n = 12) then String backslash "f"
    else if decide (n = 10) then String backslash "n"
    else if decide (n = 13) then String backslash "r"
    else if decide (n = 9) then String backslash "t"
    else if decide (n < 32)
         then String backslash
                ("u00" +:+ String (hex_digit (n / 16)) (String (hex_digit (n mod 16)) ""))
         else String c "".

Fixpoint escape (s : string) : string :=
  match s with
  | "" => ""
  | String c s' => escape_char c +:+ escape s'
  end.

Definition stringify_value (v : Js.Value) : string :=
  match v with
  | Js.Str s => quoted (escape s)
  | Js.Null | Js.Undefined => "null"
  end.

(** [JSON.stringify(o)] for an object of texts and nulls; a key whose
    value is [undefined] is left out. Keys are written in insertion order;
    that JavaScript lists keys that look like array indices first is not
    modelled. *)
Definition stringify (o : Js.Obj) : string :=
  let members :=
    omap (λ kv, match kv.2 with
                | Js.Undefined => None
                | v => Some (quoted (escape kv.1) +:+ ":" +:+ stringify_value v)
                end) o in
  "{" +:+ Js.join ","%char members +:+ "}".

End Json.

(** ** FileUtils.ts *)

(** Node's [path.join], which depends on the platform. *)
Class Path := path_join : list string → string.

(** The characters that [toFileSafeName] replaces: slash, backslash, colon,
    star, question mark, double quote, angle brackets and bar. *)
Definition invalid_file_char (c : ascii) : bool :=
  bool_decide (nat_of_ascii c ∈ [47; 92; 58; 42; 63; 34; 60; 62; 124]).

Definition toFileSafeName (name : string) : string :=
  Js.trim (Js.replace_class invalid_file_char "_"%char name).

(** The receiver of a string method, as [name] in [name.replace(...)]: the
    call throws a TypeError when the value is null or undefined. *)
Definition receiver (method : string) (v : Js.Value) : Attempt string :=
  match v with
  | Js.Str s => Done s
  | Js.Null | Js.Undefined => Fails (Js.no_property method v)
  end.

Inductive ImageType := screenshot_image | logo_image.

(** [getImagePath]: the full path and the relative path. *)
Definition getImagePath `{Path} (baseDir imageSubFolder baseName : string)
    (type : ImageType) (index : nat) : string * string :=
  let safeBaseName := toFileSafeName baseName in
  let fileName :=
    match type with
    | screenshot_image => safeBaseName +:+ ".png"
    | logo_image => safeBaseName +:+ "-" +:+ pretty index +:+ ".png"
    end in
  let fullImagePath := path_join [baseDir; imageSubFolder; fileName] in
  let relativeImagePath := path_join [imageSubFolder; fileName] in
  (fullImagePath,
   Js.replace_class (λ c, bool_decide (c = Json.backslash)) "/"%char relativeImagePath).

(** ** The page pipeline: capabilities, trace and effects *)

Inductive SelectorKind := css_kind | xpath_kind.

(** What a bypass heuristic meets on the page. *)
Record Popup := mkPopup {
  boundingBox : Attempt bool;   (* [true]: the element has a box *)
  tagName : Attempt string;
  click : Attempt unit;
  waitForTimeout : Attempt unit;
  remove : Attempt unit;
}.

(** A response of the AI service. [json] is the text found at
    [candidates[0].content.parts[0].text], [Undefined] when that path is
    absent, or the failure of reading the body. *)
Record HttpResponse := mkHttpResponse {
  ok : bool;
  http_status : nat;
  json : Attempt Js.Value;
}.

(** What the browser, the page and the AI service answer while one URL is
    processed. Each unique URL is processed once in a run. *)
Record Visit := mkVisit {
  newPage : Attempt unit;
  goto : Attempt unit;
  networkIdle : Attempt unit;
  popup : string → Popup;
  screenshot : Attempt unit;
  queryAll : string → Attempt nat;      (* [page.$$(selector)]: how many elements *)
  ensureDir : Attempt unit;
  elementScreenshot : Attempt unit;
  textContent : SelectorKind → string → Attempt Js.Value;
  outerHTML : Attempt string;
  fetch : string → Attempt HttpResponse;
}.

(** The browser handle: what a visit of each URL meets. *)
Definition Browser := string → Visit.

Inductive Routine := AttemptBypass | CaptureLogo | ScrapeCustomData | AiSmartScrape.

(** The calls the pipeline makes, in order. *)
Inductive Event :=
  | Logged (lvl : LogLevel) (msg : string)
  | Entered (r : Routine)
  | NewPage
  | Goto (url : string)
  | WaitNetworkIdle
  | BoundingBox (selector : string)
  | TagName (selector : string)
  | Click (selector : string)
  | WaitForTimeout
  | Remove (selector : string)
  | PageScreenshot (path : string)
  | QueryAll (selector : string)
  | EnsureDir
  | ElementScreenshot (path : string)
  | TextContent (kind : SelectorKind) (query : string)
  | OuterHtml
  | Fetch (html : string)
  | ReadJson
  | ClosePage.

(** The activation of [scrapeUrl]: its locals [result] and [page], and the
    trace so far. *)
Record Frame := mkFrame {
  events : list Event;
  result : ScrapeResult;
  page : bool;               (* [page !== null] *)
}.

(** A computation that may throw; the frame survives a throw, as the
    locals of a JavaScript function do in its [catch] block. *)
Definition M (A : Type) : Type := Frame → Attempt A * Frame.

Definition ret {A} (a : A) : M A := λ f, (Done a, f).

Definition bind {A B} (m : M A) (k : A → M B) : M B :=
  λ f, match m f with
       | (Done a, f') => k a f'
       | (Fails e, f') => (Fails e, f')
       end.

Definition throw {A} (e : Js.Error) : M A := λ f, (Fails e, f).

(** [try { m } catch (e) { handler e }] *)
Definition try_catch {A} (m : M A) (handler : Js.Error → M A) : M A :=
  λ f, match m f with
       | (Done a, f') => (Done a, f')
       | (Fails e, f') => handler e f'
       end.

(** stdpp's notations [x ← m; k] and [m ;; k] are used for sequencing. *)
Global Instance M_ret : MRet M := @ret.
Global Instance M_bind : MBind M := λ A B k m, bind m k.

Definition emit (ev : Event) : M unit :=
  λ f, (Done (), mkFrame (events f ++ [ev]) (result f) (page f)).

Definition answered {A} (answer : Attempt A) : M A := λ f, (answer, f).

(** [await] of a capability: the call is traced, then its answer is had. *)
Definition await {A} (ev : Event) (answer : Attempt A) : M A :=
  emit ev ;; answered answer.

(** A call of one of the routines: entering it is traced. *)
Definition call {A} (r : Routine) (m : M A) : M A :=
  emit (Entered r);; m.

Definition update (g : ScrapeResult → ScrapeResult) : M unit :=
  λ f, (Done (), mkFrame (events f) (g (result f)) (page f)).

Definition page_opened : M unit :=
  λ f, (Done (), mkFrame (events f) (result f) true).

Definition with_ScreenshotFile (v : string) (r : ScrapeResult) : ScrapeResult :=
  mkScrapeResult v (LogoFile r) (ScrapedData r) (Status r) (ErrorMessage r).
Definition with_LogoFile (v : string) (r : ScrapeResult) : ScrapeResult :=
  mkScrapeResult (ScreenshotFile r) v (ScrapedData r) (Status r) (ErrorMessage r).
Definition with_ScrapedData (v : string) (r : ScrapeResult) : ScrapeResult :=
  mkScrapeResult (ScreenshotFile r) (LogoFile r) v (Status r) (ErrorMessage r).
Definition with_Status (v : ScrapeStatus) (r : ScrapeResult) : ScrapeResult :=
  mkScrapeResult (ScreenshotFile r) (LogoFile r) (ScrapedData r) v (ErrorMessage r).
Definition with_ErrorMessage (v : string) (r : ScrapeResult) : ScrapeResult :=
  mkScrapeResult (ScreenshotFile r) (LogoFile r) (ScrapedData r) (Status r) v.

(** [for (const x of xs) { body x }] *)
Fixpoint for_each {A} (body : A → M unit) (xs : list A) : M unit :=
  match xs with
  | [] => mret ()
  | x :: rest => body x ;; for_each body rest
  end.

(** A loop that carries an accumulator. *)
Fixpoint for_fold {A B} (body : B → A → M B) (acc : B) (xs : list A) : M B :=
  match xs with
  | [] => mret acc
  | x :: rest => acc' ← body acc x; for_fold body acc' rest
  end.

(** ** Bypass.ts *)

Definition COMMON_POPUP_SELECTORS : list string :=
  [ "text=/accept|i agree|ok|got it/i";
    "[class*=" +:+ Json.quoted "cookie" +:+ "] button";
    "[id*=" +:+ Json.quoted "cookie" +:+ "] button";
    "[aria-label*=" +:+ Json.quoted "close" +:+ "]";
    "[class*=" +:+ Json.quoted "modal-close" +:+ "]";
    "[class*=" +:+ Json.quoted "popup-close" +:+ "]";
    "[class*=" +:+ Json.quoted "dismiss" +:+ "]";
    "button[title*=" +:+ Json.quoted "Close" +:+ "]";
    "button:has-text(" +:+ Json.quoted "No thanks" +:+ ")";
    "div[style*=" +:+ Json.quoted "position: fixed" +:+ "][style*="
      +:+ Json.quoted "z-index: 9999" +:+ "]";
    "div[id*=" +:+ Json.quoted "backdrop" +:+ "]" ].

(** The body of the loop of [attemptBypass], with its [try]/[catch]. *)
Definition bypassOne (visit : Visit) (log : string → M unit) (selector : string)
    : M unit :=
  try_catch
    (let element := popup visit selector in
     box ← await (BoundingBox selector) (boundingBox element);
     if (box : bool) then
       tag ← await (TagName selector) (tagName element);
       if bool_decide (tag = "BUTTON") || bool_decide (tag = "A")
          || Json.includes_text "text=" selector
       then
         log ("Bypassing by clicking selector: " +:+ Js.substring0 50 selector);;
         await (Click selector) (click element);;
         await WaitForTimeout (waitForTimeout element)
       else if bool_decide (tag = "DIV") || bool_decide (tag = "SECTION")
       then
         log ("Bypassing by hiding overlay: " +:+ Js.substring0 50 selector);;
         await (Remove selector) (remove element)
       else mret ()
     else mret ())
    (λ _, mret ()).

Definition attemptBypass (visit : Visit) (log : string → M unit) : M unit :=
  log "Attempting to bypass common popups and overlays...";;
  for_each (bypassOne visit log) COMMON_POPUP_SELECTORS;;
  log "Popup bypass attempts finished.".

(** ** LogoCapture.ts *)

Definition LOGO_HEURISTICS_SELECTORS : list string :=
  [ "header :is(img, svg)[alt*=" +:+ Json.quoted "logo"
      +:+ " i], header :is(img, svg)[class*=" +:+ Json.quoted "logo" +:+ " i]";
    "header :is(img, svg)[id*=" +:+ Json.quoted "logo"
      +:+ " i], header :is(img, svg)[aria-label*=" +:+ Json.quoted "logo" +:+ " i]";
    "[class*=" +:+ Json.quoted "brand-logo" +:+ " i], [id*="
      +:+ Json.quoted "header-logo" +:+ " i], [class*="
      +:+ Json.quoted "site-logo" +:+ " i]";
    "body > header img, body > .nav img, body > .header img" ].

(** The heuristics loop, left at the first selector that finds an element;
    [true] when [logoElement] is set. *)
Fixpoint findLogo (visit : Visit) (log : string → M unit)
    (selectors : list string) : M bool :=
  match selectors with
  | [] => mret false
  | selector :: rest =>
      found ← try_catch
                (n ← await (QueryAll selector) (queryAll visit selector);
                 if bool_decide (0 < n)
                 then log ("Logo candidate found with selector: "
                           +:+ Js.substring0 50 selector);;
                      mret true
                 else mret false)
                (λ _, mret false);
      if (found : bool) then mret true else findLogo visit log rest
  end.

(** [captureLogo]: the relative path, or [None] for [null]. *)
Definition captureLogo `{Path} (visit : Visit)
    (baseName outputDir imageSubFolder : string) (log : string → M unit)
    : M (option string) :=
  log "Attempting to find and capture primary logo...";;
  found ← findLogo visit log LOGO_HEURISTICS_SELECTORS;
  if (found : bool) then
    try_catch
      (let paths := getImagePath outputDir imageSubFolder baseName logo_image 1 in
       await EnsureDir (ensureDir visit);;
       await (ElementScreenshot paths.1) (elementScreenshot visit);;
       log ("Logo captured successfully: " +:+ paths.2);;
       mret (Some paths.2))
      (λ error,
         log ("WARN: Failed to capture logo screenshot. "
              +:+ Js.error_to_string error);;
         mret None)
  else
    log "No primary logo element found using heuristics.";;
    mret None.

(** ** ScraperEngine.scrapeCustomData *)

(** [spec.split(',').map(s => s.trim()).filter(s => s)] *)
Definition parseSelectors (spec : string) : list string :=
  filter (λ s, Js.truthy s) (Js.trim <$> Js.split ","%char spec).

(** [const [name, query] = selector.includes('=') ? ... : ['data', selector]];
    a missing second piece reads as the empty text, falsy like [undefined]. *)
Definition nameAndQuery (selector : string) : string * string :=
  if Js.includes "="%char selector
  then
    let parts := Js.trim <$> Js.split_limit "="%char 2 selector in
    (default "" (parts !! 0), default "" (parts !! 1))
  else ("data", selector).

(** The field an entry asks for, or [None] when the loop skips it. *)
Definition parseField (selector : string) : option (string * string) :=
  let nq := nameAndQuery selector in
  if Js.truthy nq.2 then Some nq else None.

(** The body of the loop over [allSelectors]. *)
Definition scrapeField (visit : Visit) (baseLog : LogLevel → string → M unit)
    (data : Js.Obj) (entry : SelectorKind * string) : M Js.Obj :=
  match parseField entry.2 with
  | None => mret data
  | Some (name, query) =>
      try_catch
        (text ← await (TextContent entry.1 query) (textContent visit entry.1 query);
         if Js.truthy (Js.or_empty text)
         then mret (Js.set name (Js.Str (Js.trim (Js.or_empty text))) data)
         else
           baseLog WARN ("Selector for " +:+ name +:+ " (" +:+ query
                         +:+ ") found element but text content was empty.");;
           mret data)
        (λ _,
           baseLog WARN ("Selector for " +:+ name +:+ " (" +:+ query
                         +:+ ") not found or failed to extract.");;
           mret (Js.set name Js.Null data))
  end.

Definition allSelectors (cfg : ScraperConfig) (row : InputRow)
    : list (SelectorKind * string) :=
  let cssSelectors :=
    parseSelectors (Js.or_else (CSSSelector row) (css (selectors cfg))) in
  let xpathSelectors :=
    parseSelectors (Js.or_else (XPathSelector row) (xpath (selectors cfg))) in
  ((λ s, (css_kind, s)) <$> cssSelectors)
  ++ ((λ s, (xpath_kind, s)) <$> xpathSelectors).

Definition scrapeCustomData (cfg : ScraperConfig) (visit : Visit)
    (row : InputRow) (baseLog : LogLevel → string → M unit) : M Js.Obj :=
  for_fold (scrapeField visit baseLog) [] (allSelectors cfg row).

(** ** AISmartScrape.ts *)

Definition HTML_BUDGET : nat := 50 * 1000.

Definition aiSmartScrape (visit : Visit) (aiApiKey : string)
    (log : string → M unit) : M (option string) :=
  if negb (Js.truthy aiApiKey) then
    log "WARN: AI Smart Scrape skipped. AI_API_KEY is not configured.";;
    mret None
  else
    fetched ← try_catch
      (pageHtml ← await OuterHtml (outerHTML visit);
       let pageHtml :=
         Js.substring0 (String.length pageHtml `min` HTML_BUDGET) pageHtml in
       log ("Fetched " +:+ pretty (String.length pageHtml)
            +:+ " characters of HTML for AI analysis.");;
       mret (Some pageHtml))
      (λ _,
         log "ERROR: Could not get page HTML for AI analysis.";;
         mret None);
    match fetched with
    | None => mret None
    | Some pageHtml =>
        try_catch
          (response ← await (Fetch pageHtml) (fetch visit pageHtml);
           if negb (ok response) then
             log ("ERROR: AI API request failed with status "
                  +:+ pretty (http_status response) +:+ ".");;
             mret None
           else
             text ← await ReadJson (json response);
             if Js.truthy (Js.or_empty text) then
               log "AI Smart Scrape successful. Data received.";;
               mret (Some (Js.or_empty text))
             else
               log "ERROR: AI response was malformed or empty.";;
               mret None)
          (λ error,
             log ("ERROR: AI Smart Scrape failed due to network error or API failure. "
                  +:+ Js.error_to_string error);;
             mret None)
    end.

(** ** ScraperEngine.scrapeUrl *)

Definition INITIAL_RESULT : ScrapeResult :=
  mkScrapeResult "" "" "{}" ERROR "Start of scrape.".

(** [baseLog]: a call of [this.log] with the worker's prefix. It is
    traced as a [Logged] event; [log] above says what it does to the
    buffer. Logging is taken not to throw. *)
Definition baseLog (workerId : nat) (firstRow : InputRow)
    (lvl : LogLevel) (msg : string) : M unit :=
  emit (Logged lvl ("[Worker " +:+ pretty workerId +:+ " - "
                    +:+ Js.to_text (BaseName firstRow) +:+ "] " +:+ msg)).

(** [firstRow.CSSSelector || firstRow.XPathSelector || css || xpath] *)
Definition selectorsProvided (cfg : ScraperConfig) (firstRow : InputRow) : bool :=
  Js.truthy
    (Js.or_else (CSSSelector firstRow)
       (Js.or_else (XPathSelector firstRow)
          (Js.or_else (css (selectors cfg)) (xpath (selectors cfg))))).

(** Steps 4 and 5 of the [try] block: the data extraction. *)
Definition extractData (cfg : ScraperConfig) (visit : Visit)
    (workerId : nat) (firstRow : InputRow) : M unit :=
  scrapedData ←
    (if selectorsProvided cfg firstRow then
       scrapedData ← call ScrapeCustomData
                       (scrapeCustomData cfg visit firstRow (baseLog workerId firstRow));
       baseLog workerId firstRow INFO "Data scraped using custom selectors.";;
       mret scrapedData
     else if useAISmartScrape cfg then
       aiResultJson ← call AiSmartScrape
                        (aiSmartScrape visit (aiApiKey cfg)
                                       (baseLog workerId firstRow INFO));
       match aiResultJson with
       | Some json =>
           if Js.truthy json then
             update (with_ScrapedData json);;
             baseLog workerId firstRow INFO "Data scraped using AI Smart Scrape."
           else mret ()
       | None => mret ()
       end;;
       mret []
     else mret []);
  if bool_decide (0 < length (Js.keys scrapedData))
  then update (with_ScrapedData (Json.stringify scrapedData))
  else mret ().

(** The [try] block of [scrapeUrl]. [getImagePath] is called with the
    [BaseName] cell as it is; its [toFileSafeName] calls [name.replace],
    which throws when the cell is not a text. Past that call the cell is a
    text, [baseName] below. *)
Definition scrapeUrl_try `{Path} (cfg : ScraperConfig) (browser : option Browser)
    (workerId : nat) (url : string) (firstRow : InputRow) : M unit :=
  match browser with
  | None => throw (Js.new_Error "Browser is not initialized.")
  | Some browser =>
      let visit := browser url in
      baseLog workerId firstRow INFO ("Starting URL: " +:+ url);;
      await NewPage (newPage visit);;
      page_opened;;
      await (Goto url) (goto visit);;
      try_catch
        (await WaitNetworkIdle (networkIdle visit))
        (λ _, baseLog workerId firstRow WARN
                "Page network idle timeout reached. Proceeding.");;
      call AttemptBypass (attemptBypass visit (baseLog workerId firstRow INFO));;
      baseName ← answered (receiver "replace" (BaseName firstRow));
      let ss := getImagePath (outputDirPath cfg) (imageSubFolder cfg)
                             baseName screenshot_image 1 in
      await (PageScreenshot ss.1) (screenshot visit);;
      baseLog workerId firstRow INFO ("Screenshot captured: " +:+ ss.2);;
      update (with_ScreenshotFile ss.2);;
      logoRelPath ← call CaptureLogo
                      (captureLogo visit baseName (outputDirPath cfg)
                                   (imageSubFolder cfg) (baseLog workerId firstRow INFO));
      update (with_LogoFile (default "" logoRelPath));;
      extractData cfg visit workerId firstRow;;
      update (with_Status SUCCESS);;
      update (with_ErrorMessage "")
  end.

(** The [catch] block of [scrapeUrl]. *)
Definition scrapeUrl_catch (workerId : nat) (url : string) (firstRow : InputRow)
    (error : Js.Error) : M unit :=
  let msg := Js.message error in
  baseLog workerId firstRow ERROR_LEVEL
    ("Scrape Failed for " +:+ url +:+ ": " +:+ msg);;
  update (with_ErrorMessage msg);;
  update (with_Status ERROR).

(** The [finally] block: the page is closed when it was opened. *)
Definition scrapeUrl_finally : M unit :=
  λ f, (if page f then emit ClosePage else mret ()) f.

(** [scrapeUrl]: the result it returns and the calls it made. Closing the
    page is taken not to throw. *)
Definition scrapeUrl `{Path} (cfg : ScraperConfig) (browser : option Browser)
    (workerId : nat) (url : string) (firstRow : InputRow)
    : ScrapeResult * list Event :=
  let body :=
    try_catch (scrapeUrl_try cfg browser workerId url firstRow)
              (scrapeUrl_catch workerId url firstRow);;
    scrapeUrl_finally in
  let f := (body (mkFrame [] INITIAL_RESULT false)).2 in
  (result f, events f).

(** ** ScraperEngine.start *)

(** The scrapes in the order in which they complete: the worker and the
    position in [urlEntries] that it took from the cursor. *)
Definition Schedule := list (nat * nat).

(** One completion: the URL the worker took from the cursor and the
    result of its scrape. The pool has [min concurrency totalUrls] workers,
    numbered from 1. *)
Definition completedScrape `{Path} (cfg : ScraperConfig) (browser : Browser)
    (urlEntries : UniqueUrls) (completion : nat * nat)
    : option (string * ScrapeResult) :=
  let pool := concurrency cfg `min` length urlEntries in
  let workerId := completion.1 in
  if bool_decide (1 ≤ workerId ≤ pool) then
    match urlEntries !! completion.2 with
    | Some (url, firstRow) =>
        Some (url, (scrapeUrl cfg (Some browser) workerId url firstRow).1)
    | None => None
    end
  else None.

(** Step 3: each completed scrape is set in [scrapeResults]. *)
Definition scrapeAll `{Path} (cfg : ScraperConfig) (browser : Browser)
    (urlEntries : UniqueUrls) (completions : Schedule) : ScrapeMap :=
  foldl (λ scrapeResults completion,
           match completedScrape cfg browser urlEntries completion with
           | Some (url, result) => <[url := result]> scrapeResults
           | None => scrapeResults
           end)
        ∅ completions.

(** What a run meets outside the engine. *)
Record Host := mkHost {
  csvFile : Attempt ParseResult;       (* reading and parsing the input *)
  imageDir : Attempt unit;             (* [ensureDir(imageOutputDir)] *)
  launch : Attempt Browser;            (* [chromium.launch] *)
  completions : Schedule;              (* the run, up to exhaustion or [stop] *)
  writeFile : Attempt unit;            (* [fs.writeFileSync] of the output *)
}.

(** [start]: the rows of the output table that was written, [None] when
    the run ended in the fatal-error handler. *)
Definition start `{Path} (cfg : ScraperConfig) (host : Host)
    : option (list OutputRow) :=
  match parseInputCsv (csvFile host) with
  | Fails _ => None
  | Done (uniqueUrls, inputRows) =>
      match imageDir host, launch host with
      | Done _, Done browser =>
          let scrapeResults := scrapeAll cfg browser uniqueUrls (completions host) in
          let finalScrapeMap := mapResultsBack inputRows scrapeResults in
          let csvContent := generateOutputCsv inputRows finalScrapeMap in
          match writeFile host with
          | Done _ => Some csvContent
          | Fails _ => None
          end
      | _, _ => None
      end
  end.

(** ** Vocabulary of the properties *)

(** The routine that makes a call; [None] for [scrapeUrl] itself and for
    log lines, which every routine writes. *)
Definition origin (ev : Event) : option Routine :=
  match ev with
  | Entered r => Some r
  | BoundingBox _ | TagName _ | Click _ | WaitForTimeout | Remove _ =>
      Some AttemptBypass
  | QueryAll _ | EnsureDir | ElementScreenshot _ => Some CaptureLogo
  | TextContent _ _ => Some ScrapeCustomData
  | OuterHtml | Fetch _ | ReadJson => Some AiSmartScrape
  | Logged _ _ | NewPage | Goto _ | WaitNetworkIdle | PageScreenshot _
  | ClosePage => None
  end.

(** The events a routine [r] may leave in the trace. *)
Definition within (r : Routine) (ev : Event) : Prop :=
  match ev with
  | Logged _ _ => True
  | _ => origin ev = Some r
  end.

(** A frame with more events and the same locals. *)
Definition frame_add (f : Frame) (new : list Event) : Frame :=
  mkFrame (events f ++ new) (result f) (page f).

(** [m] touches only the trace, adds only [allowed] events, and ends as
    [post] says. *)
Definition traced {A} (allowed : Event → Prop) (post : Attempt A → Prop)
    (m : M A) : Prop :=
  ∀ f, ∃ o new, m f = (o, frame_add f new) ∧ Forall allowed new ∧ post o.

(** [traced], for an [m] that does not throw. *)
Definition quiet {A} (allowed : Event → Prop) (post : A → Prop) (m : M A) : Prop :=
  traced allowed (λ o, ∃ a, o = Done a ∧ post a) m.

(** The failure that ends a scrape in its [catch] block, if any: no browser
    handle, the page not opened, the navigation, a [BaseName] cell that is
    not a text when the name of the screenshot file is made, or the
    screenshot; the first of them in the order of the [try] block. *)
Definition fatal_failure (browser : option Browser) (url : string)
    (firstRow : InputRow) : option Js.Error :=
  match browser with
  | None => Some (Js.new_Error "Browser is not initialized.")
  | Some browser =>
      match newPage (browser url), goto (browser url),
            receiver "replace" (BaseName firstRow), screenshot (browser url) with
      | Fails e, _, _, _ => Some e
      | Done _, Fails e, _, _ => Some e
      | Done _, Done _, Fails e, _ => Some e
      | Done _, Done _, Done _, Fails e => Some e
      | Done _, Done _, Done _, Done _ => None
      end
  end.

(** What the AI call comes to: the JSON text it returned, or [None] when
    it failed: no API key, the page's HTML not obtainable, the request
    failing or answered with an HTTP error, the body unreadable, or no
    text in the answer. *)
Definition aiOutcome (aiApiKey : string) (visit : Visit) : option string :=
  if Js.truthy aiApiKey then
    match outerHTML visit with
    | Fails _ => None
    | Done html =>
        match fetch visit (Js.substring0 (String.length html `min` HTML_BUDGET) html) with
        | Fails _ => None
        | Done response =>
            if ok response then
              match json response with
              | Done (Js.Str text) => if Js.truthy text then Some text else None
              | _ => None
              end
            else None
        end
    end
  else None.

(** An event made neither by the selector extraction nor by the AI call. *)
Definition outside_extraction (ev : Event) : Prop :=
  origin ev ≠ Some ScrapeCustomData ∧ origin ev ≠ Some AiSmartScrape.

(** The element lookups that a trace makes for the fields, in order. *)
Definition lookups (tr : list Event) : list (SelectorKind * string) :=
  omap (λ ev, match ev with
              | TextContent kind query => Some (kind, query)
              | _ => None
              end) tr.

(** An event that is not the lookup of a field. *)
Definition not_a_lookup (ev : Event) : Prop :=
  ∀ kind query, ev ≠ TextContent kind query.

(** The lookups that the entries of a selector spec ask for: the query of
    every entry that names a field, in order. *)
Definition asked (kind : SelectorKind) (entries : list string)
    : list (SelectorKind * string) :=
  (λ nq : string * string, (kind, nq.2)) <$> omap parseField entries.

(** What the extraction stage did: the events [ext] it added and the
    extracted data [after] it left, [before] being the data on entry. *)
Definition extraction (cfg : ScraperConfig) (visit : Visit) (row : InputRow)
    (before after : string) (ext : list Event) : Prop :=
  if selectorsProvided cfg row then
    head ext = Some (Entered ScrapeCustomData)
    ∧ Forall (within ScrapeCustomData) ext
    ∧ lookups ext =
        asked css_kind
          (parseSelectors (Js.or_else (CSSSelector row) (css (selectors cfg))))
        ++ asked xpath_kind
             (parseSelectors (Js.or_else (XPathSelector row) (xpath (selectors cfg))))
  else if useAISmartScrape cfg then
    head ext = Some (Entered AiSmartScrape)
    ∧ Forall (within AiSmartScrape) ext
    ∧ after = default before (aiOutcome (aiApiKey cfg) visit)
    ∧ (Js.truthy (aiApiKey cfg) = true → OuterHtml ∈ ext)
  else ext = [] ∧ after = before.

(** ** More of the code *)

Module CsvUtils.

(** A letter or a digit: the class [[a-z0-9]] read without regard to case. *)
Definition is_alnum (c : ascii) : bool :=
  let n := nat_of_ascii c in
  bool_decide (48 ≤ n ≤ 57) || bool_decide (65 ≤ n ≤ 90)
  || bool_decide (97 ≤ n ≤ 122).

(** [c.toLowerCase()] for one character: only the capital letters move. *)
Definition to_lower (c : ascii) : ascii :=
  let n := nat_of_ascii c in
  if bool_decide (65 ≤ n ≤ 90) then ascii_of_nat (n + 32) else c.

Fixpoint toLowerCase (s : string) : string :=
  match s with
  | "" => ""
  | String c s' => String (to_lower c) (toLowerCase s')
  end.

(** The file-safe name of CsvUtils.ts:
    [name.replace(/[^a-z0-9]/gi, '_').toLowerCase()]. *)
Definition toFileSafeName (name : string) : string :=
  toLowerCase (Js.replace_class (λ c, negb (is_alnum c)) "_"%char name).

End CsvUtils.

(** Every character of a text satisfies [P]. *)
Fixpoint all_chars (P : ascii → bool) (s : string) : bool :=
  match s with
  | "" => true
  | String c s' => P c && all_chars P s'
  end.

(** Whether a logo heuristic finds an element: the first selector whose
    query answers with at least one element; a query that throws finds
    nothing. *)
Definition logoFound (visit : Visit) (selectors : list string) : bool :=
  existsb (λ selector,
             match queryAll visit selector with
             | Done n => bool_decide (0 < n)
             | Fails _ => false
             end) selectors.

(** What the logo capture comes to: the relative path of the logo file,
    or [None] when no heuristic finds an element, the directory cannot be
    made, or the element cannot be captured. *)
Definition logoOutcome `{Path} (visit : Visit)
    (baseName outputDir imageSubFolder : string) : option string :=
  if logoFound visit LOGO_HEURISTICS_SELECTORS then
    match ensureDir visit, elementScreenshot visit with
    | Done _, Done _ =>
        Some (getImagePath outputDir imageSubFolder baseName logo_image 1).2
    | _, _ => None
    end
  else None.

(** The names of the fields that the selector specs of a row ask for. *)
Definition fieldNames (cfg : ScraperConfig) (row : InputRow) : list string :=
  omap (λ entry : SelectorKind * string, fst <$> parseField entry.2)
       (allSelectors cfg row).

(** The selectors that a trace probes for a bounding box, in order. *)
Definition probed (tr : list Event) : list string :=
  omap (λ ev, match ev with BoundingBox selector => Some selector | _ => None end) tr.

(** An event that is not the probe of a heuristic. *)
Definition not_a_probe (ev : Event) : Prop :=
  ∀ selector, ev ≠ BoundingBox selector.

(** The texts that a trace sends to the AI service, in order. *)
Definition sentHtml (tr : list Event) : list string :=
  omap (λ ev, match ev with Fetch html => Some html | _ => None end) tr.

(** An event that is not a request to the AI service. *)
Definition not_a_request (ev : Event) : Prop :=
  ∀ html, ev ≠ Fetch html.

(** A bypass heuristic acts by a click: the element is a button or a link,
    or the heuristic is a text selector. *)
Definition clickable (visit : Visit) (selector : string) : Prop :=
  boundingBox (popup visit selector) = Done true
  ∧ ∃ tag, tagName (popup visit selector) = Done tag
           ∧ (tag = "BUTTON" ∨ tag = "A"
              ∨ Json.includes_text "text=" selector = true).

(** A bypass heuristic acts by removing the element: it is a [DIV] or a
    [SECTION] and the heuristic is not handled by a click. *)
Definition removable (visit : Visit) (selector : string) : Prop :=
  boundingBox (popup visit selector) = Done true
  ∧ ∃ tag, tagName (popup visit selector) = Done tag
           ∧ (tag = "DIV" ∨ tag = "SECTION")
           ∧ Json.includes_text "text=" selector = false.

(** The stage of the pipeline a call belongs to: 0 for log lines and the
    opening of the page, 1 for the navigation, 2 for the network-idle wait,
    the popup bypass and the screenshot, 3 for the logo capture and the
    data extraction, 4 for the closing of the page. *)
Definition stage (ev : Event) : nat :=
  match ev with
  | Logged _ _ | NewPage => 0
  | Goto _ => 1
  | WaitNetworkIdle | PageScreenshot _ => 2
  | ClosePage => 4
  | _ =>
      match origin ev with
      | Some AttemptBypass => 2
      | _ => 3
      end
  end.

(** How far a scrape gets: the number of fatal steps (opening the page,
    navigating, taking the screenshot) that succeed in a row. *)
Definition stagesPassed (browser : option Browser) (url : string) : nat :=
  match browser with
  | None => 0
  | Some browser =>
      match newPage (browser url), goto (browser url), screenshot (browser url) with
      | Fails _, _, _ => 0
      | Done _, Fails _, _ => 1
      | Done _, Done _, Fails _ => 2
      | Done _, Done _, Done _ => 3
      end
  end.

(** Whether the scrape opens a page. *)
Definition pageOpened (browser : option Browser) (url : string) : bool :=
  match browser with
  | Some browser =>
      match newPage (browser url) with Done _ => true | Fails _ => false end
  | None => false
  end.

(** ** Sample runs *)

Module Sample.

(** Segments joined by a slash, as [path.join] does for plain segments. *)
Definition plain_join : Path :=
  λ parts, Js.join "/"%char (filter (λ s, Js.truthy s) parts).

Definition no_popup : Popup :=
  mkPopup (Done false) (Done "") (Done ()) (Done ()) (Done ()).

(** A page that loads and has nothing special on it. *)
Definition plain_visit : Visit :=
  mkVisit (Done ()) (Done ()) (Done ()) (λ _, no_popup) (Done ())
          (λ _, Done 0) (Done ()) (Done ()) (λ _ _, Done Js.Null)
          (Done "<body>hi</body>")
          (λ _, Fails (Js.mkError "TypeError" "fetch failed")).

(** The same page, with an AI service that answers. *)
Definition answered_visit : Visit :=
  mkVisit (Done ()) (Done ()) (Done ()) (λ _, no_popup) (Done ())
          (λ _, Done 0) (Done ()) (Done ()) (λ _ _, Done Js.Null)
          (Done "<body>hi</body>")
          (λ _, Done (mkHttpResponse true 200 (Done (Js.Str "{}")))).


Definition plain_browser : Browser := λ _, plain_visit.
Definition answered_browser : Browser := λ _, answered_visit.

Definition config : ScraperConfig :=
  mkScraperConfig "in.csv" "out" "images" (mkSelectors "" "") false 2 "".

Definition ai_config : ScraperConfig :=
  mkScraperConfig "in.csv" "out" "images" (mkSelectors "" "") true 2 "key".

Definition row (baseName url : string) : InputRow :=
  [("BaseName", Js.Str baseName); ("URL", Js.Str url)].

(** The rows of the example: A and B share a URL, C has its own. *)
Definition rowA : InputRow := row "A" "u1".
Definition rowB : InputRow := row "B" "u1".
Definition rowC : InputRow := row "C" "u2".

(** A row whose [BaseName] cell is empty in the input: the parser gives
    null. *)
Definition blank_name_row : InputRow :=
  [("BaseName", Js.Null); ("URL", Js.Str "u1")].

(** A configuration with a CSS selector spec. *)
Definition selector_config : ScraperConfig :=
  mkScraperConfig "in.csv" "out" "images" (mkSelectors "title=h1" "") true 2 "key".

Definition host (rows : list InputRow) (completions : Schedule) : Host :=
  mkHost (Done (mkParseResult rows [])) (Done ()) (Done plain_browser)
         completions (Done ()).

(** A buffer that holds 500 entries. *)
Definition full_engine : Engine :=
  mkEngine (replicate 500 (mkLogMessage INFO "line" 0%Z)) true 0 0 0 [].

Definition a_call : LogCall := mkLogCall WARN "one more" None 1%Z.

End Sample.

(* ===================================================================== *)
(** * Properties *)
(* ===================================================================== *)

(** ** The reporter's log buffer *)

Section Reporter.

Implicit Types (e : Engine) (c : LogCall).

Lemma logMessages_log_call e c :
  logMessages (log_call e c) =
    if decide (500 < length (logMessages e ++ [log_entry c]))
    then drop 100 (logMessages e ++ [log_entry c])
    else logMessages e ++ [log_entry c].
Proof. reflexivity. Qed.

Lemma log_call_bounded e c :
  length (logMessages e) ≤ 500 → length (logMessages (log_call e c)) ≤ 500.
Proof.
  intros Hle. rewrite logMessages_log_call.
  case_decide as Hlen; rewrite ?length_drop, length_app in *; simpl in *; lia.
Qed.

Lemma log_all_bounded calls e :
  length (logMessages e) ≤ 500 → length (logMessages (log_all calls e)) ≤ 500.
Proof.
  revert e. induction calls as [|c calls IH]; intros e Hle; [done|].
  apply IH, log_call_bounded, Hle.
Qed.

Lemma log_call_at_cap e c :
  length (logMessages e) = 500 →
  logMessages (log_call e c) = drop 100 (logMessages e) ++ [log_entry c].
Proof.
  intros Hlen. rewrite logMessages_log_call.
  rewrite decide_True by (rewrite length_app; simpl; lia).
  rewrite drop_app_le by lia. done.
Qed.

End Reporter.

(** ** JavaScript objects *)

Section Objects.

Implicit Types (o : Js.Obj) (k : string) (v : Js.Value).

Lemma get_set k k' v o :
  Js.get k (Js.set k' v o) = if decide (k' = k) then v else Js.get k o.
Proof.
  induction o as [|[k0 v0] o IH]; simpl.
  - done.
  - destruct (decide (k0 = k')) as [->|Hne]; simpl.
    + destruct (decide (k' = k)); done.
    + rewrite IH. destruct (decide (k0 = k)) as [->|]; [|done].
      rewrite decide_False; [done|]. congruence.
Qed.

Lemma set_fresh k v o : k ∉ Js.keys o → Js.set k v o = o ++ [(k, v)].
Proof.
  unfold Js.keys. induction o as [|[k0 v0] o IH]; simpl; intros Hk; [done|].
  rewrite not_elem_of_cons in Hk. destruct Hk as [Hne Hk].
  rewrite decide_False by congruence. by rewrite IH.
Qed.

Lemma spread_fresh o1 o2 :
  NoDup (Js.keys (o1 ++ o2)) → Js.spread o1 o2 = o1 ++ o2.
Proof.
  unfold Js.spread. revert o1.
  induction o2 as [|[k v] o2 IH]; intros o1 Hnd; simpl.
  - by rewrite app_nil_r.
  - assert (k ∉ Js.keys o1) as Hk.
    { unfold Js.keys in *. rewrite fmap_app, fmap_cons in Hnd.
      apply NoDup_app in Hnd as (_ & Hdisj & _).
      intros Hin. apply (Hdisj _ Hin). simpl. left. }
    rewrite set_fresh by done.
    rewrite IH; rewrite <- app_assoc; done.
Qed.

(** Copying a well-formed object gives the object. *)
Lemma spread_copy o : NoDup (Js.keys o) → Js.spread [] o = o.
Proof. intros Hnd. by rewrite spread_fresh. Qed.

End Objects.

(** ** The output table *)

Section OutputTable.

Implicit Types (rows : list InputRow) (row : InputRow) (m : ScrapeMap)
  (hs : list string) (h : string).

Lemma elem_of_add_header hs h h' :
  h ∈ add_header hs h' ↔ h ∈ hs ∨ h = h'.
Proof.
  unfold add_header. case_bool_decide as Hin.
  - split; [by left|]. intros [?| ->]; done.
  - rewrite elem_of_app, list_elem_of_singleton. done.
Qed.

Lemma elem_of_add_headers hs (l : list string) h :
  h ∈ foldl add_header hs l ↔ h ∈ hs ∨ h ∈ l.
Proof.
  revert hs. induction l as [|x l IH]; intros hs; simpl.
  - rewrite elem_of_nil. tauto.
  - rewrite IH, elem_of_add_header, elem_of_cons. tauto.
Qed.

Lemma elem_of_row_headers hs rows h :
  h ∈ foldl (λ allHeaders row, foldl add_header allHeaders (Js.keys row)) hs rows
  ↔ h ∈ hs ∨ ∃ row, row ∈ rows ∧ h ∈ Js.keys row.
Proof.
  revert hs. induction rows as [|row rows IH]; intros hs; simpl.
  - split; [by left|]. intros [?|(? & Hin & _)]; [done|].
    by apply elem_of_nil in Hin.
  - rewrite IH, elem_of_add_headers. split.
    + intros [[?|?]|(r & ? & ?)]; [by left| |].
      * right. exists row. split; [left|done].
      * right. exists r. split; [by right|done].
    + intros [?|(r & Hin & ?)]; [by left; left|].
      apply elem_of_cons in Hin as [->|?]; [by left; right|].
      right. by exists r.
Qed.

Lemma elem_of_finalHeaders rows h :
  h ∈ finalHeaders rows ↔
  h ∈ RESULT_HEADERS ∨ ∃ row, row ∈ rows ∧ h ∈ Js.keys row.
Proof.
  unfold finalHeaders. rewrite elem_of_add_headers, elem_of_row_headers.
  rewrite elem_of_nil. tauto.
Qed.

Lemma result_header_final rows h : h ∈ RESULT_HEADERS → h ∈ finalHeaders rows.
Proof. intros ?. apply elem_of_finalHeaders. by left. Qed.

Lemma cell_complete (g : string → string) hs h :
  cell h ((λ header, (header, g header)) <$> hs) =
    if bool_decide (h ∈ hs) then g h else "".
Proof.
  induction hs as [|x hs IH]; [done|].
  rewrite fmap_cons. cbn [cell]. destruct (decide (x = h)) as [->|Hne].
  - rewrite bool_decide_eq_true_2; [done|left].
  - rewrite IH. rewrite (bool_decide_ext (h ∈ hs) (h ∈ x :: hs)); [done|].
    rewrite elem_of_cons. naive_solver.
Qed.

(** The cells of a result column when the URL has a result. *)
Lemma outputRow_found hs m row r h :
  m !! URL row = Some r → h ∈ hs → h ∈ RESULT_HEADERS →
  cell h (outputRow hs m row) = Js.or_empty (Js.get h (result_obj r)).
Proof.
  intros Hm Hh Hres. unfold outputRow. rewrite Hm, cell_complete.
  rewrite bool_decide_eq_true_2 by done.
  unfold RESULT_HEADERS in Hres.
  unfold Js.spread at 1. cbn [foldl result_obj fst snd].
  repeat (apply elem_of_cons in Hres as [->|Hres];
          [by rewrite !get_set|]).
  by apply elem_of_nil in Hres.
Qed.

End OutputTable.

Section OutputRows.

Implicit Types (rows : list InputRow) (row : InputRow) (m : ScrapeMap)
  (hs : list string) (h : string).

Lemma outputRow_status hs m row :
  "Status" ∈ hs →
  cell "Status" (outputRow hs m row) =
    match m !! URL row with
    | Some r => status_name (Status r)
    | None => "ERROR"
    end.
Proof.
  intros Hh. destruct (m !! URL row) as [r|] eqn:Hm.
  - rewrite (outputRow_found _ _ _ r); [done..|]. set_solver.
  - unfold outputRow. rewrite Hm, cell_complete, bool_decide_eq_true_2 by done.
    unfold Js.spread at 1. cbn [foldl MISSING_RESULT fst snd].
    by rewrite !get_set.
Qed.

Lemma outputRow_missing_message hs m row :
  "ErrorMessage" ∈ hs → m !! URL row = None →
  cell "ErrorMessage" (outputRow hs m row) =
    "Internal error: URL not found in results map.".
Proof.
  intros Hh Hm. unfold outputRow.
  rewrite Hm, cell_complete, bool_decide_eq_true_2 by done.
  unfold Js.spread at 1. cbn [foldl MISSING_RESULT fst snd].
  by rewrite !get_set.
Qed.

(** A column of the input row that is not a result column is carried over. *)
Lemma outputRow_input_cell hs m row h :
  NoDup (Js.keys row) → h ∈ hs → h ∉ RESULT_HEADERS →
  cell h (outputRow hs m row) = Js.or_empty (Js.get h row).
Proof.
  intros Hnd Hh Hres. unfold outputRow.
  rewrite cell_complete, bool_decide_eq_true_2 by done.
  rewrite spread_copy by done.
  assert (∀ k, k ∈ RESULT_HEADERS → k ≠ h) as Hne by (intros k ? ->; done).
  destruct (m !! URL row) as [r|].
  - unfold Js.spread. cbn [foldl result_obj fst snd].
    rewrite !get_set.
    rewrite !decide_False; [done|apply Hne; set_solver..].
  - unfold Js.spread. cbn [foldl MISSING_RESULT fst snd].
    rewrite !get_set.
    rewrite !decide_False; [done|apply Hne; set_solver..].
Qed.

Lemma generateOutputCsv_length rows m :
  length (generateOutputCsv rows m) = length rows.
Proof. unfold generateOutputCsv. by rewrite length_fmap. Qed.

Lemma generateOutputCsv_lookup rows m (i : nat) :
  generateOutputCsv rows m !! i = outputRow (finalHeaders rows) m <$> rows !! i.
Proof. unfold generateOutputCsv. by rewrite list_lookup_fmap. Qed.

End OutputRows.

(** ** Results mapped back to the rows *)

Section Remap.

Implicit Types (rows : list InputRow) (row : InputRow) (m final : ScrapeMap)
  (u : string) (later : list string).

Lemma copyResults_id m : copyResults m = m.
Proof.
  unfold copyResults.
  apply (map_fold_weak_ind (λ r m, r = m)); [done|].
  intros; by subst.
Qed.

(** After a row at a position other than the first, the row's URL is
    relabelled whenever it has a result. *)
Lemma remapRow_lookup m final later (index : nat) row u :
  index ≠ 0 →
  (∀ u, final !! u =
          if bool_decide (u ∈ later) then asDuplicate <$> m !! u else m !! u) →
  remapRow m final index row !! u =
    if bool_decide (u ∈ later ++ [URL row])
    then asDuplicate <$> m !! u else m !! u.
Proof.
  intros Hidx Hfinal. unfold remapRow.
  rewrite bool_decide_eq_false_2 by done. cbn [orb].
  assert (final !! URL row = None ↔ m !! URL row = None) as Hdom.
  { rewrite Hfinal. case_bool_decide; [|done].
    destruct (m !! URL row); naive_solver. }
  destruct (m !! URL row) as [existing|] eqn:Hm.
  - rewrite bool_decide_eq_true_2; cycle 1.
    { apply not_eq_None_Some. rewrite Hdom. done. }
    cbn [negb]. destruct (decide (u = URL row)) as [->|Hne].
    + rewrite lookup_insert_eq, Hm.
      rewrite bool_decide_eq_true_2 by set_solver. done.
    + rewrite lookup_insert_ne by done. rewrite Hfinal.
      apply (f_equal (λ b : bool, if b then _ else _)).
      apply bool_decide_ext. set_solver.
  - assert (final !! URL row = None) as Hf by (by apply Hdom).
    rewrite bool_decide_eq_false_2 by (rewrite Hf; by intros [? ?]).
    cbn [negb]. rewrite Hfinal.
    destruct (decide (u = URL row)) as [->|Hne].
    + rewrite Hm. by do 2 case_bool_decide.
    + apply (f_equal (λ b : bool, if b then _ else _)).
      apply bool_decide_ext. set_solver.
Qed.

Lemma remapFrom_lookup m rows final later (index : nat) u :
  index ≠ 0 →
  (∀ u, final !! u =
          if bool_decide (u ∈ later) then asDuplicate <$> m !! u else m !! u) →
  remapFrom m index rows final !! u =
    if bool_decide (u ∈ later ++ (URL <$> rows))
    then asDuplicate <$> m !! u else m !! u.
Proof.
  revert final later index.
  induction rows as [|row rows IH]; intros final later index Hidx Hfinal.
  - simpl. rewrite app_nil_r. apply Hfinal.
  - cbn [remapFrom]. rewrite (IH _ (later ++ [URL row])); [|done|].
    + rewrite fmap_cons, <- app_assoc. done.
    + intros u'. by apply remapRow_lookup.
Qed.

(** The final map: the URL of every row but the first is relabelled, and
    no other URL is. *)
Lemma mapResultsBack_lookup rows m u :
  mapResultsBack rows m !! u =
    if bool_decide (u ∈ URL <$> tail rows)
    then asDuplicate <$> m !! u else m !! u.
Proof.
  unfold mapResultsBack. rewrite copyResults_id.
  destruct rows as [|row rows]; [done|].
  cbn [remapFrom tail]. unfold remapRow at 1.
  rewrite bool_decide_eq_true_2 by done. cbn [orb].
  rewrite (remapFrom_lookup _ _ _ []); [done|done|].
  intros u'. by rewrite bool_decide_eq_false_2 by apply not_elem_of_nil.
Qed.

Lemma mapResultsBack_None rows m u :
  m !! u = None → mapResultsBack rows m !! u = None.
Proof.
  intros Hm. rewrite mapResultsBack_lookup, Hm. by case_bool_decide.
Qed.

End Remap.

(** ** A small logic of traced computations *)

Section Traces.

Context {A B : Type}.
Implicit Types (allowed : Event → Prop) (f : Frame).

Lemma frame_add_nil f : frame_add f [] = f.
Proof. destruct f. unfold frame_add. simpl. by rewrite app_nil_r. Qed.

Lemma frame_add_add f new1 new2 :
  frame_add (frame_add f new1) new2 = frame_add f (new1 ++ new2).
Proof. unfold frame_add. simpl. by rewrite app_assoc. Qed.

Lemma run_bind (m : M A) (k : A → M B) f :
  (m ≫= k) f =
    match m f with
    | (Done a, f') => k a f'
    | (Fails e, f') => (Fails e, f')
    end.
Proof. reflexivity. Qed.

Lemma traced_ret allowed (post : Attempt A → Prop) (a : A) :
  post (Done a) → traced allowed post (mret a).
Proof.
  intros Hpost f. exists (Done a), []. by rewrite frame_add_nil.
Qed.

Lemma traced_weaken allowed (post post' : Attempt A → Prop) (m : M A) :
  traced allowed post m → (∀ o, post o → post' o) → traced allowed post' m.
Proof.
  intros Hm Himp f. destruct (Hm f) as (o & new & Heq & Hall & Hpost).
  exists o, new. auto.
Qed.

Lemma traced_bind allowed (p : Attempt A → Prop) (q : Attempt B → Prop)
    (m : M A) (k : A → M B) :
  traced allowed p m →
  (∀ a, p (Done a) → traced allowed q (k a)) →
  (∀ e, p (Fails e) → q (Fails e)) →
  traced allowed q (m ≫= k).
Proof.
  intros Hm Hk He f. rewrite run_bind.
  destruct (Hm f) as (o & new & -> & Hall & Hp). destruct o as [a|e].
  - destruct (Hk a Hp (frame_add f new)) as (o' & new' & -> & Hall' & Hq).
    exists o', (new ++ new'). rewrite frame_add_add.
    split; [done|]. split; [|done]. by apply Forall_app.
  - exists (Fails e), new. auto.
Qed.

Lemma traced_try_catch allowed (p q : Attempt A → Prop)
    (m : M A) (handler : Js.Error → M A) :
  traced allowed p m →
  (∀ a, p (Done a) → q (Done a)) →
  (∀ e, p (Fails e) → traced allowed q (handler e)) →
  traced allowed q (try_catch m handler).
Proof.
  intros Hm Hd Hh f. unfold try_catch.
  destruct (Hm f) as (o & new & -> & Hall & Hp). destruct o as [a|e].
  - exists (Done a), new. auto.
  - destruct (Hh e Hp (frame_add f new)) as (o' & new' & -> & Hall' & Hq).
    exists o', (new ++ new'). rewrite frame_add_add.
    split; [done|]. split; [|done]. by apply Forall_app.
Qed.

End Traces.

Section TracedSteps.

Implicit Types (allowed : Event → Prop) (f : Frame).

Lemma traced_emit allowed (post : Attempt unit → Prop) ev :
  allowed ev → post (Done ()) → traced allowed post (emit ev).
Proof.
  intros Hev Hpost f. exists (Done ()), [ev].
  split; [done|]. split; [|done]. by apply Forall_singleton.
Qed.

Lemma traced_await {A} allowed ev (answer : Attempt A) :
  allowed ev → traced allowed (λ o, o = answer) (await ev answer).
Proof.
  intros Hev f. exists answer, [ev].
  split; [done|]. split; [|done]. by apply Forall_singleton.
Qed.

Lemma quiet_ret {A} allowed (post : A → Prop) (a : A) :
  post a → quiet allowed post (mret a).
Proof. intros Hpost. apply traced_ret. eauto. Qed.

Lemma quiet_bind {A B} allowed (p : A → Prop) (q : B → Prop)
    (m : M A) (k : A → M B) :
  quiet allowed p m → (∀ a, p a → quiet allowed q (k a)) →
  quiet allowed q (m ≫= k).
Proof.
  intros Hm Hk. eapply traced_bind; [exact Hm| |].
  - intros a (a' & [= <-] & Hp). by apply Hk.
  - intros e (a' & [=] & _).
Qed.

Lemma quiet_emit allowed ev : allowed ev → quiet allowed (λ _, True) (emit ev).
Proof. intros Hev. apply traced_emit; [done|]. by exists (). Qed.

Lemma quiet_weaken {A} allowed (p q : A → Prop) (m : M A) :
  quiet allowed p m → (∀ a, p a → q a) → quiet allowed q m.
Proof.
  intros Hm Himp. eapply traced_weaken; [exact Hm|].
  intros o (a & -> & Hp). eauto.
Qed.

(** A guarded body: whatever the body does, the handler makes it quiet. *)
Lemma quiet_try_catch {A} allowed (p : Attempt A → Prop) (q : A → Prop)
    (m : M A) (handler : Js.Error → M A) :
  traced allowed p m →
  (∀ a, p (Done a) → q a) →
  (∀ e, quiet allowed q (handler e)) →
  quiet allowed q (try_catch m handler).
Proof.
  intros Hm Hd Hh. eapply traced_try_catch; [exact Hm| |].
  - intros a Hp. eauto.
  - intros e _. apply Hh.
Qed.

Lemma traced_of_quiet {A} allowed (p : A → Prop) (m : M A) :
  quiet allowed p m → traced allowed (λ _, True) m.
Proof. intros Hm. eapply traced_weaken; [exact Hm|done]. Qed.

Lemma quiet_for_each {A} allowed (body : A → M unit) (xs : list A) :
  (∀ x, quiet allowed (λ _, True) (body x)) →
  quiet allowed (λ _, True) (for_each body xs).
Proof.
  intros Hbody. induction xs as [|x xs IH]; cbn [for_each].
  - by apply quiet_ret.
  - eapply quiet_bind; [apply Hbody|]. intros _ _. apply IH.
Qed.

Lemma quiet_for_fold {A B} allowed (body : B → A → M B) (acc : B) (xs : list A) :
  (∀ acc x, quiet allowed (λ _, True) (body acc x)) →
  quiet allowed (λ _, True) (for_fold body acc xs).
Proof.
  intros Hbody. revert acc. induction xs as [|x xs IH]; intros acc; cbn [for_fold].
  - by apply quiet_ret.
  - eapply quiet_bind; [apply Hbody|]. intros acc' _. apply IH.
Qed.

End TracedSteps.

Section TracedPrograms.

Implicit Types (allowed : Event → Prop) (f : Frame).

(** An awaited call followed by the rest of the program. *)
Lemma traced_await_bind {A B} allowed ev (answer : Attempt A) (k : A → M B)
    (q : Attempt B → Prop) :
  allowed ev →
  match answer with
  | Done a => traced allowed q (k a)
  | Fails e => q (Fails e)
  end →
  traced allowed q (await ev answer ≫= k).
Proof.
  intros Hev Hk.
  eapply traced_bind; [by apply traced_await| |]; intros ? <-; done.
Qed.

(** A quiet step followed by the rest of the program. *)
Lemma traced_quiet_bind {A B} allowed (p : A → Prop) (q : Attempt B → Prop)
    (m : M A) (k : A → M B) :
  quiet allowed p m → (∀ a, p a → traced allowed q (k a)) →
  traced allowed q (m ≫= k).
Proof.
  intros Hm Hk. eapply traced_bind; [exact Hm| |].
  - intros a (a' & [= <-] & Hp). by apply Hk.
  - intros e (a' & [=] & _).
Qed.

Lemma traced_anyhow {A} allowed (p : Attempt A → Prop) (m : M A) :
  traced allowed p m → traced allowed (λ _, True) m.
Proof. intros Hm. eapply traced_weaken; [exact Hm|done]. Qed.

End TracedPrograms.

(** Steps through a program whose outcome does not matter. *)
Ltac anyhow_step Hlog :=
  lazymatch goal with
  | |- traced _ _ (await _ _ ≫= _) =>
      apply traced_await_bind; [done|]; case_match; [|done]
  | |- traced _ _ (await _ _) =>
      eapply traced_anyhow; apply traced_await; done
  | |- traced _ _ (mret _) => by apply traced_ret
  | |- traced _ _ (_ ≫= _) =>
      eapply traced_quiet_bind; [apply Hlog|intros _ _]
  | |- traced _ _ (if ?b then _ else _) => destruct b
  | |- traced _ _ _ => eapply traced_anyhow; apply Hlog
  end.

Section Routines.

Context `{Path}.
Variables (r : Routine) (log : string → M unit).
Hypothesis log_quiet : ∀ msg, quiet (within r) (λ _, True) (log msg).

Lemma bypassOne_quiet visit selector :
  r = AttemptBypass →
  quiet (within r) (λ _, True) (bypassOne visit log selector).
Proof using log_quiet.
  intros ->. unfold bypassOne.
  apply quiet_try_catch with (p := λ _, True);
    [|done|intros; by apply quiet_ret].
  repeat anyhow_step log_quiet.
Qed.

Lemma attemptBypass_quiet visit :
  r = AttemptBypass →
  quiet (within r) (λ _, True) (attemptBypass visit log).
Proof using log_quiet.
  intros Hr. unfold attemptBypass.
  eapply quiet_bind; [apply log_quiet|]. intros _ _.
  eapply quiet_bind; [|intros _ _; apply log_quiet].
  apply quiet_for_each. intros selector. by apply bypassOne_quiet.
Qed.

Lemma findLogo_quiet visit selectors :
  r = CaptureLogo →
  quiet (within r) (λ _, True) (findLogo visit log selectors).
Proof using log_quiet.
  intros ->. induction selectors as [|selector rest IH]; cbn [findLogo].
  - by apply quiet_ret.
  - eapply quiet_bind with (p := λ _, True).
    + apply quiet_try_catch with (p := λ _, True);
        [|done|intros; by apply quiet_ret].
      repeat anyhow_step log_quiet.
    + intros [] _; [by apply quiet_ret|apply IH].
Qed.

Lemma captureLogo_quiet visit baseName outputDir subFolder :
  r = CaptureLogo →
  quiet (within r) (λ _, True)
        (captureLogo visit baseName outputDir subFolder log).
Proof using log_quiet.
  intros Hr. unfold captureLogo.
  eapply quiet_bind; [apply log_quiet|]. intros _ _.
  eapply quiet_bind; [by apply findLogo_quiet|]. intros [] _.
  - subst r. apply quiet_try_catch with (p := λ _, True); [|done|].
    + repeat anyhow_step log_quiet.
    + intros e. eapply quiet_bind; [apply log_quiet|].
      intros _ _. by apply quiet_ret.
  - eapply quiet_bind; [apply log_quiet|]. intros _ _. by apply quiet_ret.
Qed.

(** The AI call never throws, and returns what [aiOutcome] says. *)
Lemma aiSmartScrape_quiet visit aiApiKey :
  r = AiSmartScrape →
  quiet (within r) (λ a, a = aiOutcome aiApiKey visit)
        (aiSmartScrape visit aiApiKey log).
Proof using log_quiet.
  intros ->. unfold aiSmartScrape, aiOutcome.
  destruct (Js.truthy aiApiKey); cbn [negb].
  2:{ eapply quiet_bind; [apply log_quiet|]. intros _ _. by apply quiet_ret. }
  eapply quiet_bind with
    (p := λ fetched,
       fetched = match outerHTML visit with
                 | Done html =>
                     Some (Js.substring0 (String.length html `min` HTML_BUDGET) html)
                 | Fails _ => None
                 end).
  { destruct (outerHTML visit) as [html|e].
    - eapply traced_try_catch with (p := λ o, o = Done (Some _)).
      + apply traced_await_bind; [done|].
        eapply traced_quiet_bind; [apply log_quiet|]. intros _ _.
        by apply traced_ret.
      + intros a ->. eauto.
      + intros e [=].
    - eapply traced_try_catch with (p := λ o, o = Fails e).
      + by apply traced_await_bind.
      + intros a [=].
      + intros e' _. eapply quiet_bind; [apply log_quiet|].
        intros _ _. by apply quiet_ret. }
  intros fetched ->. destruct (outerHTML visit) as [html|e];
    [|by apply quiet_ret].
  set (pageHtml := Js.substring0 _ html).
  destruct (fetch visit pageHtml) as [response|e] eqn:Hfetch.
  2:{ eapply traced_try_catch with (p := λ o, o = Fails e).
      - by apply traced_await_bind.
      - intros a [=].
      - intros e' _. eapply quiet_bind; [apply log_quiet|].
        intros _ _. by apply quiet_ret. }
  assert (∀ e', quiet (within AiSmartScrape)
            (λ a : option string, a = None)
            (log ("ERROR: AI Smart Scrape failed due to network error or API failure. "
                  +:+ Js.error_to_string e');; mret None)) as Hhandler.
  { intros e'. eapply quiet_bind; [apply log_quiet|].
    intros _ _. by apply quiet_ret. }
  destruct (ok response) eqn:Hok; cbn [negb].
  2:{ eapply traced_try_catch with (p := λ o, o = Done None).
      - apply traced_await_bind; [done|]. cbn beta iota. rewrite Hok.
        eapply traced_quiet_bind; [apply log_quiet|]. intros _ _.
        by apply traced_ret.
      - intros a ->. eauto.
      - intros e' [=]. }
  destruct (json response) as [text|e] eqn:Hjson.
  2:{ eapply traced_try_catch with (p := λ o, o = Fails e).
      - apply traced_await_bind; [done|]. cbn beta iota. rewrite Hok.
        cbn [negb]. apply traced_await_bind; [done|]. by rewrite Hjson.
      - intros a [=].
      - intros e' _. apply Hhandler. }
  eapply traced_try_catch with
    (p := λ o, o = Done (match text with
                         | Js.Str t => if Js.truthy t then Some t else None
                         | _ => None
                         end)).
  - apply traced_await_bind; [done|]. cbn beta iota. rewrite Hok.
    cbn [negb]. apply traced_await_bind; [done|]. rewrite Hjson.
    destruct text as [t| |]; cbn [Js.or_empty Js.truthy].
    + destruct (Js.truthy t);
        (eapply traced_quiet_bind; [apply log_quiet|]; intros _ _;
         by apply traced_ret).
    + eapply traced_quiet_bind; [apply log_quiet|]. intros _ _.
      by apply traced_ret.
    + eapply traced_quiet_bind; [apply log_quiet|]. intros _ _.
      by apply traced_ret.
  - intros a ->. eauto.
  - intros e' [=].
Qed.

End Routines.

Section Extraction.

Context `{Path}.
Implicit Types (cfg : ScraperConfig) (visit : Visit) (row : InputRow) (f : Frame).

Lemma run_emit ev f : emit ev f = (Done (), frame_add f [ev]).
Proof. reflexivity. Qed.

Lemma run_await {A} ev (answer : Attempt A) f :
  await ev answer f = (answer, frame_add f [ev]).
Proof. reflexivity. Qed.

Lemma run_update g f :
  update g f = (Done (), mkFrame (events f) (g (result f)) (page f)).
Proof. reflexivity. Qed.

Lemma run_answered {A} (answer : Attempt A) f : answered answer f = (answer, f).
Proof. reflexivity. Qed.

Lemma run_ret {A} (a : A) (f : Frame) : (mret a : M A) f = (Done a, f).
Proof. done. Qed.

Lemma frame_add_inj f new1 new2 :
  frame_add f new1 = frame_add f new2 → new1 = new2.
Proof. unfold frame_add. intros [= Heq]. by apply app_inv_head in Heq. Qed.

Section Heads.

Variable allowed : Event → Prop.

(** A guarded body that starts with an awaited call: the call is the first
    thing in the trace, whatever follows. *)
Lemma try_catch_await_head {A B} ev (answer : Attempt A) (k : A → M B)
    (handler : Js.Error → M B) (f : Frame) :
  (∀ a, answer = Done a → traced allowed (λ _, True) (k a)) →
  (∀ e, quiet allowed (λ _, True) (handler e)) →
  ∃ b rest,
    try_catch (await ev answer ≫= k) handler f
      = (Done b, frame_add f (ev :: rest))
    ∧ Forall allowed rest.
Proof using Type.
  intros Hk Hh. unfold try_catch. rewrite run_bind, run_await.
  destruct answer as [a|e].
  - destruct (Hk a eq_refl (frame_add f [ev])) as (o & new & -> & Hnew & _).
    destruct o as [b|e].
    + exists b, new. by rewrite frame_add_add.
    + destruct (Hh e (frame_add (frame_add f [ev]) new))
        as (o & new' & -> & Hnew' & (b & -> & _)).
      exists b, (new ++ new'). rewrite !frame_add_add.
      split; [done|]. by apply Forall_app.
  - destruct (Hh e (frame_add f [ev])) as (o & new' & -> & Hnew' & (b & -> & _)).
    exists b, new'. by rewrite frame_add_add.
Qed.

End Heads.

Lemma run_baseLog workerId row lvl msg f :
  ∃ line, baseLog workerId row lvl msg f = (Done (), frame_add f [Logged lvl line]).
Proof. eexists. reflexivity. Qed.

(** A call of a quiet routine: its events follow the entry. *)
Lemma run_call {A} (r : Routine) (p : A → Prop) (m : M A) f :
  quiet (within r) p m →
  ∃ a new, call r m f = (Done a, frame_add f (Entered r :: new))
           ∧ Forall (within r) new ∧ p a.
Proof.
  intros Hm.
  destruct (Hm (frame_add f [Entered r])) as (o & new & Hrun & Hnew & (a & -> & Hp)).
  exists a, new. split; [|done].
  unfold call. rewrite run_bind, run_emit. cbn beta iota.
  rewrite Hrun, frame_add_add. done.
Qed.

Lemma baseLog_quiet r workerId row lvl msg :
  quiet (within r) (λ _, True) (baseLog workerId row lvl msg).
Proof. unfold baseLog. by apply quiet_emit. Qed.

Lemma scrapeField_quiet visit workerId row data entry :
  quiet (within ScrapeCustomData) (λ _, True)
        (scrapeField visit (baseLog workerId row) data entry).
Proof.
  unfold scrapeField. destruct (parseField entry.2) as [[name query]|];
    [|by apply quiet_ret].
  apply quiet_try_catch with (p := λ _, True); [|done|].
  - repeat anyhow_step (baseLog_quiet ScrapeCustomData workerId row).
  - intros e. eapply quiet_bind; [apply baseLog_quiet|].
    intros _ _. by apply quiet_ret.
Qed.

Lemma scrapeCustomData_quiet cfg visit workerId row :
  quiet (within ScrapeCustomData) (λ _, True)
        (scrapeCustomData cfg visit row (baseLog workerId row)).
Proof. apply quiet_for_fold. intros. apply scrapeField_quiet. Qed.

Lemma lookups_app tr1 tr2 : lookups (tr1 ++ tr2) = lookups tr1 ++ lookups tr2.
Proof. apply omap_app. Qed.

Lemma lookups_none tr : Forall not_a_lookup tr → lookups tr = [].
Proof.
  induction 1 as [|ev tr Hev _ IH]; [done|].
  destruct ev; try exact IH. by destruct (Hev kind query).
Qed.

(** One entry of the selector specs: a field is looked up once, an entry
    that names no field is not looked up. *)
Lemma scrapeField_lookup visit workerId row data entry f :
  ∃ data' new,
    scrapeField visit (baseLog workerId row) data entry f
      = (Done data', frame_add f new)
    ∧ lookups new =
        match parseField entry.2 with
        | Some nq => [(entry.1, nq.2)]
        | None => []
        end.
Proof.
  assert (∀ lvl msg, quiet not_a_lookup (λ _, True) (baseLog workerId row lvl msg))
    as Hlog by (intros lvl msg; by apply quiet_emit).
  unfold scrapeField. destruct (parseField entry.2) as [[name query]|].
  2:{ exists data, []. by rewrite frame_add_nil. }
  lazymatch goal with
  | |- ∃ _ _, try_catch (await ?ev ?answer ≫= ?k) ?handler f = _ ∧ _ =>
      destruct (try_catch_await_head not_a_lookup ev answer k handler f)
        as (data' & rest & -> & Hrest)
  end.
  - intros text _. destruct (Js.truthy (Js.or_empty text));
      [by apply traced_ret|].
    eapply traced_quiet_bind; [apply Hlog|]. intros _ _. by apply traced_ret.
  - intros e. eapply quiet_bind; [apply Hlog|]. intros _ _. by apply quiet_ret.
  - exists data', (TextContent entry.1 query :: rest). split; [done|].
    change (lookups (TextContent entry.1 query :: rest))
      with ((entry.1, query) :: lookups rest).
    by rewrite (lookups_none rest).
Qed.

Lemma for_fold_lookups visit workerId row entries data f :
  ∃ data' new,
    for_fold (scrapeField visit (baseLog workerId row)) data entries f
      = (Done data', frame_add f new)
    ∧ lookups new =
        omap (λ entry : SelectorKind * string,
                (λ nq : string * string, (entry.1, nq.2)) <$> parseField entry.2)
             entries.
Proof.
  revert data f. induction entries as [|entry entries IH]; intros data f;
    cbn [for_fold].
  - exists data, []. by rewrite frame_add_nil.
  - rewrite run_bind.
    destruct (scrapeField_lookup visit workerId row data entry f)
      as (data1 & new1 & -> & Hnew1).
    destruct (IH data1 (frame_add f new1)) as (data2 & new2 & -> & Hnew2).
    exists data2, (new1 ++ new2). rewrite frame_add_add. split; [done|].
    rewrite lookups_app, Hnew1, Hnew2. cbn [omap list_omap].
    by destruct (parseField entry.2).
Qed.

Lemma omap_tagged (kind : SelectorKind) (entries : list string) :
  omap (λ entry : SelectorKind * string,
          (λ nq : string * string, (entry.1, nq.2)) <$> parseField entry.2)
       ((λ s, (kind, s)) <$> entries)
  = asked kind entries.
Proof.
  unfold asked. induction entries as [|entry entries IH]; [done|].
  rewrite fmap_cons. cbn [omap list_omap fst snd]. rewrite IH.
  by destruct (parseField entry).
Qed.

(** The selector extraction looks up the fields that the specs ask for,
    the CSS ones first, each once and in order. *)
Lemma scrapeCustomData_lookups cfg visit workerId row f :
  ∃ data new,
    scrapeCustomData cfg visit row (baseLog workerId row) f
      = (Done data, frame_add f new)
    ∧ Forall (within ScrapeCustomData) new
    ∧ lookups new =
        asked css_kind
          (parseSelectors (Js.or_else (CSSSelector row) (css (selectors cfg))))
        ++ asked xpath_kind
             (parseSelectors (Js.or_else (XPathSelector row) (xpath (selectors cfg)))).
Proof.
  destruct (scrapeCustomData_quiet cfg visit workerId row f)
    as (o & new & Hrun & Hnew & (data & -> & _)).
  exists data, new. split; [done|]. split; [done|].
  unfold scrapeCustomData in Hrun.
  destruct (for_fold_lookups visit workerId row (allSelectors cfg row) [] f)
    as (data' & new' & Hrun' & Hlook).
  rewrite Hrun in Hrun'.
  assert (frame_add f new = frame_add f new') as Hf by congruence.
  apply frame_add_inj in Hf as ->. rewrite Hlook.
  unfold allSelectors. cbv zeta. by rewrite omap_app, !omap_tagged.
Qed.

(** With an API key, the first call of the AI routine reads the page. *)
Lemma aiSmartScrape_reads visit aiApiKey workerId row f :
  Js.truthy aiApiKey = true →
  ∃ a rest,
    aiSmartScrape visit aiApiKey (baseLog workerId row INFO) f
      = (Done a, frame_add f (OuterHtml :: rest)).
Proof.
  intros Hkey.
  assert (∀ msg, quiet (λ _, True) (λ _, True) (baseLog workerId row INFO msg))
    as Hlog by (intros msg; by apply quiet_emit).
  unfold aiSmartScrape. rewrite Hkey. cbn [negb]. rewrite run_bind.
  lazymatch goal with
  | |- context [try_catch (await ?ev ?answer ≫= ?k) ?handler f] =>
      destruct (try_catch_await_head (λ _, True) ev answer k handler f)
        as (fetched & rest & -> & _)
  end.
  - intros pageHtml _. cbv zeta.
    eapply traced_quiet_bind; [apply Hlog|]. intros _ _. by apply traced_ret.
  - intros e. eapply quiet_bind; [apply Hlog|]. intros _ _. by apply quiet_ret.
  - destruct fetched as [pageHtml|].
    2:{ exists None, rest. by rewrite run_ret. }
    lazymatch goal with
    | |- ∃ _ _, try_catch (await ?ev ?answer ≫= ?k) ?handler ?f0 = _ =>
        destruct (try_catch_await_head (λ _, True) ev answer k handler f0)
          as (a & rest' & -> & _)
    end.
    + intros response _. repeat anyhow_step Hlog.
    + intros error. eapply quiet_bind; [apply Hlog|]. intros _ _.
      by apply quiet_ret.
    + exists a, (rest ++ Fetch pageHtml :: rest'). by rewrite frame_add_add.
Qed.

Lemma run_call_eq {A} (r : Routine) (m : M A) f (a : A) new :
  m (frame_add f [Entered r])
    = (Done a, frame_add (frame_add f [Entered r]) new) →
  call r m f = (Done a, frame_add f (Entered r :: new)).
Proof.
  intros Hrun. unfold call. rewrite run_bind, run_emit, Hrun.
  by rewrite frame_add_add.
Qed.

Lemma with_ScrapedData_same (r : ScrapeResult) :
  with_ScrapedData (ScrapedData r) r = r.
Proof. by destruct r. Qed.

(** The extraction stage never throws, and does what [extraction] says. *)
Lemma extractData_run cfg visit workerId row f :
  ∃ ext after,
    extractData cfg visit workerId row f =
      (Done (), mkFrame (events f ++ ext) (with_ScrapedData after (result f)) (page f))
    ∧ extraction cfg visit row (ScrapedData (result f)) after ext.
Proof.
  unfold extractData, extraction. rewrite run_bind.
  destruct (selectorsProvided cfg row).
  - (* selectors *)
    rewrite run_bind.
    destruct (scrapeCustomData_lookups cfg visit workerId row
                (frame_add f [Entered ScrapeCustomData]))
      as (data & new & Hrun & Hnew & Hlook).
    rewrite (run_call_eq _ _ _ _ _ Hrun).
    cbn beta iota. rewrite run_bind.
    destruct (run_baseLog workerId row INFO "Data scraped using custom selectors."
                (frame_add f (Entered ScrapeCustomData :: new)))
      as (line & ->).
    cbn beta iota. cbn [mret M_ret ret].
    assert (Forall (within ScrapeCustomData)
              (Entered ScrapeCustomData :: new ++ [Logged INFO line])) as Hall.
    { apply Forall_cons. split; [done|].
      apply Forall_app. split; [done|]. by apply Forall_singleton. }
    assert (lookups (Entered ScrapeCustomData :: new ++ [Logged INFO line])
            = lookups new) as Hsame.
    { change (lookups (Entered ScrapeCustomData :: new ++ [Logged INFO line]))
        with (lookups (new ++ [Logged INFO line])).
      rewrite lookups_app. apply app_nil_r. }
    rewrite <- Hsame in Hlook.
    rewrite frame_add_add. case_bool_decide.
    + rewrite run_update.
      by eexists (Entered ScrapeCustomData :: new ++ [Logged INFO line]), _.
    + eexists (Entered ScrapeCustomData :: new ++ [Logged INFO line]),
              (ScrapedData (result f)).
      split; [|done]. by rewrite with_ScrapedData_same.
  - destruct (useAISmartScrape cfg).
    + (* the AI fallback *)
      rewrite !run_bind.
      destruct (aiSmartScrape_quiet AiSmartScrape (baseLog workerId row INFO)
                  (baseLog_quiet _ _ _ _) visit (aiApiKey cfg) eq_refl
                  (frame_add f [Entered AiSmartScrape]))
        as (o & new & Hrun & Hnew & (a & -> & ->)).
      assert (Js.truthy (aiApiKey cfg) = true → OuterHtml ∈ new) as Hread.
      { intros Hkey.
        destruct (aiSmartScrape_reads visit (aiApiKey cfg) workerId row
                    (frame_add f [Entered AiSmartScrape]) Hkey)
          as (a' & rest & Hrun').
        rewrite Hrun in Hrun'.
        assert (frame_add (frame_add f [Entered AiSmartScrape]) new
                = frame_add (frame_add f [Entered AiSmartScrape])
                            (OuterHtml :: rest)) as Hf by congruence.
        apply frame_add_inj in Hf as ->. left. }
      rewrite (run_call_eq _ _ _ _ _ Hrun).
      cbn beta iota.
      destruct (aiOutcome (aiApiKey cfg) visit) as [json|] eqn:Hai.
      * assert (Js.truthy json = true) as ->.
        { revert Hai. unfold aiOutcome. repeat case_match; congruence. }
        rewrite !run_bind, run_update. cbn beta iota.
        destruct (run_baseLog workerId row INFO "Data scraped using AI Smart Scrape."
                    (mkFrame (events (frame_add f (Entered AiSmartScrape :: new)))
                       (with_ScrapedData json
                          (result (frame_add f (Entered AiSmartScrape :: new))))
                       (page (frame_add f (Entered AiSmartScrape :: new)))))
          as (line & ->).
        cbn beta iota. cbn [mret M_ret ret length Js.keys fmap list_fmap].
        rewrite bool_decide_eq_false_2 by (simpl; lia).
        eexists (Entered AiSmartScrape :: new ++ [Logged INFO line]), json.
        split; [unfold frame_add; cbn [events result page];
                by rewrite <- !app_assoc|].
        split; [done|]. split; [|split; [done|]].
        -- apply Forall_cons. split; [done|].
           apply Forall_app. split; [done|]. by apply Forall_singleton.
        -- intros Hkey. right. apply elem_of_app. left. by apply Hread.
      * rewrite run_bind.
        cbn [mret M_ret ret length Js.keys fmap list_fmap].
        rewrite bool_decide_eq_false_2 by (simpl; lia).
        cbn [events result page frame_add].
        eexists (Entered AiSmartScrape :: new), (ScrapedData (result f)).
        rewrite with_ScrapedData_same.
        split; [done|]. split; [done|]. split; [by apply Forall_cons|].
        split; [done|]. intros Hkey. right. by apply Hread.
    + cbn [mret M_ret ret]. cbn [length Js.keys fmap list_fmap].
      rewrite bool_decide_eq_false_2 by (simpl; lia).
      exists [], (ScrapedData (result f)).
      rewrite with_ScrapedData_same, app_nil_r. by destruct f.
Qed.

End Extraction.

(** Runs a quiet step at the head of the program. *)
Ltac run_quiet Hq :=
  rewrite run_bind;
  let o := fresh "o" in
  let Heq := fresh "Heq" in
  edestruct Hq as (o & ?new & Heq & ?Hnew & (?a & -> & _));
  rewrite Heq; clear Heq; cbn beta iota.

Section Pipeline.

Context `{Path}.
Implicit Types (cfg : ScraperConfig) (browser : Browser) (row : InputRow)
  (f : Frame).

Lemma quiet_allowed {A} (allowed allowed' : Event → Prop) (p : A → Prop) (m : M A) :
  (∀ ev, allowed ev → allowed' ev) → quiet allowed p m → quiet allowed' p m.
Proof.
  intros Himp Hm f. destruct (Hm f) as (o & new & Heq & Hnew & Hp).
  exists o, new. split; [done|]. split; [|done].
  eapply Forall_impl; [exact Hnew|exact Himp].
Qed.

Lemma within_outside r ev :
  r = AttemptBypass ∨ r = CaptureLogo → within r ev → outside_extraction ev.
Proof.
  unfold within, outside_extraction.
  intros [-> | ->]; destruct ev; try done; intros ->; done.
Qed.

Lemma baseLog_outside workerId row lvl msg :
  quiet outside_extraction (λ _, True) (baseLog workerId row lvl msg).
Proof. unfold baseLog. by apply quiet_emit. Qed.

Lemma call_quiet {A} r (p : A → Prop) (m : M A) :
  quiet (within r) p m → quiet (within r) p (call r m).
Proof.
  intros Hm. unfold call. eapply quiet_bind; [by apply quiet_emit|].
  intros _ _. exact Hm.
Qed.

Lemma networkIdle_outside workerId row (answer : Attempt unit) :
  quiet outside_extraction (λ _, True)
    (try_catch (await WaitNetworkIdle answer)
       (λ _, baseLog workerId row WARN
               "Page network idle timeout reached. Proceeding.")).
Proof.
  apply quiet_try_catch with (p := λ _, True); [|done|].
  - eapply traced_anyhow. by apply traced_await.
  - intros _. apply baseLog_outside.
Qed.

Lemma bypass_outside browser url workerId row :
  quiet outside_extraction (λ _, True)
    (call AttemptBypass
       (attemptBypass (browser url) (baseLog workerId row INFO))).
Proof.
  eapply quiet_allowed; [intros ev; apply within_outside; by left|].
  apply call_quiet. eapply attemptBypass_quiet; [|done].
  intros msg. apply baseLog_quiet.
Qed.

Lemma logo_outside browser url workerId row baseName outputDir subFolder :
  quiet outside_extraction (λ _, True)
    (call CaptureLogo
       (captureLogo (browser url) baseName outputDir subFolder
                    (baseLog workerId row INFO))).
Proof.
  eapply quiet_allowed; [intros ev; apply within_outside; by right|].
  apply call_quiet. eapply captureLogo_quiet; [|done].
  intros msg. apply baseLog_quiet.
Qed.

(** The [try] block: it throws exactly the fatal failure, before any
    field of the result is written; otherwise it ends in success. *)
Lemma scrapeUrl_try_run cfg browser workerId url row :
  ∃ o fr,
    scrapeUrl_try cfg (Some browser) workerId url row
                  (mkFrame [] INITIAL_RESULT false) = (o, fr)
    ∧ match fatal_failure (Some browser) url row with
      | Some e =>
          o = Fails e ∧ result fr = INITIAL_RESULT
          ∧ Forall outside_extraction (events fr)
      | None =>
          o = Done () ∧ page fr = true
          ∧ ∃ baseName logo after pre ext,
              BaseName row = Js.Str baseName
              ∧ events fr = pre ++ ext
              ∧ result fr =
                  mkScrapeResult
                    (getImagePath (outputDirPath cfg) (imageSubFolder cfg)
                                  baseName screenshot_image 1).2
                    logo after SUCCESS ""
              ∧ Forall outside_extraction pre
              ∧ extraction cfg (browser url) row "{}" after ext
      end.
Proof.
  unfold scrapeUrl_try, fatal_failure.
  run_quiet (baseLog_outside workerId row INFO ("Starting URL: " +:+ url)).
  rewrite run_bind, run_await.
  destruct (newPage (browser url)) as [[]|e]; cbn beta iota.
  2:{ eexists _, _. split; [reflexivity|].
      cbn [events result frame_add]. split; [done|]. split; [done|].
      apply Forall_app. split; [done|]. by apply Forall_singleton. }
  rewrite run_bind. unfold page_opened. cbn beta iota.
  rewrite run_bind, run_await.
  destruct (goto (browser url)) as [[]|e]; cbn beta iota.
  2:{ eexists _, _. split; [reflexivity|].
      cbn [events result frame_add]. split; [done|]. split; [done|].
      rewrite !Forall_app. repeat split; try done; by apply Forall_singleton. }
  run_quiet (networkIdle_outside workerId row (networkIdle (browser url))).
  run_quiet (bypass_outside browser url workerId row).
  rewrite run_bind, run_answered.
  destruct (receiver "replace" (BaseName row)) as [baseName|e] eqn:Hname;
    cbn beta iota.
  2:{ eexists _, _. split; [reflexivity|].
      cbn [events result frame_add]. split; [done|]. split; [done|].
      rewrite !Forall_app. repeat split; try done; by apply Forall_singleton. }
  assert (BaseName row = Js.Str baseName) as Htext
    by (destruct (BaseName row); cbn in Hname; congruence).
  rewrite run_bind, run_await.
  destruct (screenshot (browser url)) as [[]|e]; cbn beta iota.
  2:{ eexists _, _. split; [reflexivity|].
      cbn [events result frame_add]. split; [done|]. split; [done|].
      rewrite !Forall_app. repeat split; try done; by apply Forall_singleton. }
  run_quiet (baseLog_outside workerId row INFO
               ("Screenshot captured: "
                +:+ (getImagePath (outputDirPath cfg) (imageSubFolder cfg)
                                  baseName screenshot_image 1).2)).
  rewrite run_bind, run_update. cbn beta iota.
  rewrite run_bind.
  edestruct (logo_outside browser url workerId row baseName
               (outputDirPath cfg) (imageSubFolder cfg))
    as (o & new4 & Heq & Hnew4 & (logo & -> & _)).
  rewrite Heq; clear Heq; cbn beta iota.
  rewrite run_bind, run_update. cbn beta iota.
  rewrite run_bind.
  edestruct (extractData_run cfg (browser url) workerId row)
    as (ext & after & Heq & Hext).
  rewrite Heq; clear Heq; cbn beta iota.
  rewrite run_bind, !run_update. cbn beta iota.
  cbn [events result page frame_add with_ScreenshotFile with_LogoFile
       with_ScrapedData with_Status with_ErrorMessage
       ScreenshotFile LogoFile ScrapedData Status ErrorMessage INITIAL_RESULT]
    in *.
  eexists _, _. split; [reflexivity|]. cbn [events result page].
  split; [done|]. split; [done|].
  eexists baseName, (default "" logo), after, _, ext.
  split; [done|].
  split; [reflexivity|]. split; [done|]. split; [|exact Hext].
  rewrite !Forall_app. repeat split; try done; by apply Forall_singleton.
Qed.

End Pipeline.

Section Scrape.

Context `{Path}.
Implicit Types (cfg : ScraperConfig) (row : InputRow).

(** What a scrape returns and what it leaves in the trace. *)
Lemma scrapeUrl_outcome cfg (browser : option Browser) workerId url row :
  match fatal_failure browser url row with
  | Some e =>
      ∃ tr,
        scrapeUrl cfg browser workerId url row
          = (mkScrapeResult "" "" "{}" ERROR (Js.message e), tr)
        ∧ Forall outside_extraction tr
  | None =>
      ∃ b baseName logo after pre ext,
        browser = Some b
        ∧ BaseName row = Js.Str baseName
        ∧ scrapeUrl cfg browser workerId url row
            = (mkScrapeResult
                 (getImagePath (outputDirPath cfg) (imageSubFolder cfg)
                               baseName screenshot_image 1).2
                 logo after SUCCESS "",
               pre ++ ext ++ [ClosePage])
        ∧ Forall outside_extraction pre
        ∧ extraction cfg (b url) row "{}" after ext
  end.
Proof.
  destruct browser as [b|].
  - destruct (scrapeUrl_try_run cfg b workerId url row) as (o & fr & Heq & Hcase).
    unfold scrapeUrl. rewrite run_bind. unfold try_catch. rewrite Heq.
    destruct (fatal_failure (Some b) url row) as [e|].
    + destruct Hcase as (-> & Hres & Hev). unfold scrapeUrl_catch.
      rewrite run_bind.
      edestruct (run_baseLog workerId row ERROR_LEVEL) as (line & ->).
      cbn beta iota. rewrite run_bind, !run_update. cbn beta iota.
      unfold scrapeUrl_finally.
      cbn [events result page frame_add]. rewrite Hres.
      destruct (page fr).
      * rewrite run_emit. eexists. split; [reflexivity|].
        cbn [events frame_add snd]. rewrite !Forall_app.
        repeat split; try done; by apply Forall_singleton.
      * eexists. split; [reflexivity|].
        cbn [events frame_add snd mret M_ret ret]. rewrite !Forall_app.
        repeat split; try done; by apply Forall_singleton.
    + destruct Hcase as (-> & Hpage & baseName & logo & after & pre & ext
                         & Hname & Hev & Hres & Hpre & Hext).
      cbn beta iota. unfold scrapeUrl_finally. rewrite Hpage, run_emit.
      cbn [events result page frame_add snd]. rewrite Hev, Hres.
      exists b, baseName, logo, after, pre, ext.
      split; [done|]. split; [done|]. split; [by rewrite <- app_assoc|]. done.
  - eexists. split; [reflexivity|].
    apply Forall_singleton. done.
Qed.

(** A scrape ends in [ERROR] with the message of the fatal failure, or
    in [SUCCESS] with no message. *)
Lemma scrapeUrl_status cfg (browser : option Browser) workerId url row :
  let r := (scrapeUrl cfg browser workerId url row).1 in
  match fatal_failure browser url row with
  | Some e => Status r = ERROR ∧ ErrorMessage r = Js.message e
  | None => Status r = SUCCESS ∧ ErrorMessage r = ""
  end.
Proof.
  pose proof (scrapeUrl_outcome cfg browser workerId url row) as Hout.
  destruct (fatal_failure browser url row) as [e|].
  - destruct Hout as (tr & -> & _). done.
  - destruct Hout as (b & baseName & logo & after & pre & ext & _ & _ & -> & _).
    done.
Qed.

Lemma scrapeUrl_not_skipped cfg (browser : option Browser) workerId url row :
  Status (scrapeUrl cfg browser workerId url row).1 = SUCCESS
  ∨ Status (scrapeUrl cfg browser workerId url row).1 = ERROR.
Proof.
  pose proof (scrapeUrl_status cfg browser workerId url row) as Hst.
  cbv zeta in Hst. destruct (fatal_failure browser url row); naive_solver.
Qed.

End Scrape.

(** ** The deduplicated work list and the scheduler *)

Section Scheduler.

Context `{Path}.
Implicit Types (cfg : ScraperConfig) (browser : Browser) (rows : list InputRow)
  (urlEntries : UniqueUrls) (sched : Schedule) (u : string).

Lemma collectUniqueUrls_invariant rows :
  NoDup (collectUniqueUrls rows).*1
  ∧ Forall (λ url, Js.truthy url = true) (collectUniqueUrls rows).*1.
Proof.
  unfold collectUniqueUrls.
  assert (∀ acc : UniqueUrls,
            NoDup acc.*1 ∧ Forall (λ url, Js.truthy url = true) acc.*1 →
            let out :=
              foldl (λ uniqueUrls row,
                       if Js.truthy (URL row)
                          && negb (uniqueUrls_has (URL row) uniqueUrls)
                       then uniqueUrls ++ [(URL row, row)]
                       else uniqueUrls) acc rows in
            NoDup out.*1 ∧ Forall (λ url, Js.truthy url = true) out.*1) as Hgen.
  { induction rows as [|row rows IH]; intros acc Hacc; [done|].
    cbn [foldl]. apply IH. destruct Hacc as [Hnd Htr].
    destruct (Js.truthy (URL row)) eqn:Hu; [|done]. cbn [andb].
    unfold uniqueUrls_has. case_bool_decide as Hin; [done|]. cbn [negb].
    rewrite fmap_app. cbn [fmap list_fmap fst]. split.
    - apply NoDup_app. split; [done|]. split; [|apply NoDup_singleton].
      intros x Hx ->%list_elem_of_singleton. done.
    - apply Forall_app. split; [done|]. by apply Forall_singleton. }
  apply (Hgen []). split; [apply NoDup_nil_2|apply Forall_nil_2].
Qed.

(** An empty URL is never in the work list. *)
Lemma collectUniqueUrls_truthy rows (i : nat) url row :
  collectUniqueUrls rows !! i = Some (url, row) → url ≠ "".
Proof.
  intros Hi ->. destruct (collectUniqueUrls_invariant rows) as [_ Htr].
  rewrite Forall_forall in Htr.
  assert ("" ∈ (collectUniqueUrls rows).*1) as Hin.
  { apply list_elem_of_fmap. exists ("", row). split; [done|].
    by eapply list_elem_of_lookup_2. }
  by apply Htr in Hin.
Qed.

Lemma foldl_set_results (l : list (nat * nat))
    (contribution : nat * nat → option (string * ScrapeResult)) (m0 : ScrapeMap) :
  foldl (λ m c, match contribution c with
                | Some (url, r) => <[url := r]> m
                | None => m
                end) m0 l
  = list_to_map (reverse (omap contribution l)) ∪ m0.
Proof.
  revert m0. induction l as [|c l IH]; intros m0; cbn [foldl].
  - cbn. by rewrite (left_id_L ∅ (∪)).
  - rewrite IH. cbn [omap list_omap]. destruct (contribution c) as [[url r]|].
    + rewrite reverse_cons, list_to_map_app. cbn [list_to_map foldr uncurry].
      rewrite <- (assoc_L (∪)). f_equal.
      rewrite insert_union_singleton_l, insert_empty. done.
    + done.
Qed.

Lemma scrapeAll_list_to_map cfg browser urlEntries sched :
  scrapeAll cfg browser urlEntries sched =
    list_to_map (reverse (omap (completedScrape cfg browser urlEntries) sched)).
Proof.
  unfold scrapeAll. rewrite foldl_set_results. by rewrite (right_id_L ∅ (∪)).
Qed.

(** Every recorded result is the result of a scrape of a listed URL. *)
Lemma scrapeAll_lookup_Some cfg browser urlEntries sched u r :
  scrapeAll cfg browser urlEntries sched !! u = Some r →
  ∃ workerId (index : nat) row,
    (workerId, index) ∈ sched
    ∧ urlEntries !! index = Some (u, row)
    ∧ r = (scrapeUrl cfg (Some browser) workerId u row).1.
Proof.
  rewrite scrapeAll_list_to_map. intros Hin%elem_of_list_to_map_2.
  apply elem_of_reverse, list_elem_of_omap in Hin as ([w i] & Hc & Hdone).
  unfold completedScrape in Hdone. cbn [fst snd] in Hdone.
  case_bool_decide; [|done].
  destruct (urlEntries !! i) as [[url row]|] eqn:Hi; [|done].
  injection Hdone as -> <-. by exists w, i, row.
Qed.

Lemma completed_keys_NoDup cfg browser urlEntries sched :
  NoDup urlEntries.*1 → NoDup sched.*2 →
  NoDup (omap (completedScrape cfg browser urlEntries) sched).*1.
Proof.
  intros Hurls. induction sched as [|[w i] sched IH]; intros Hnd.
  - apply NoDup_nil_2.
  - rewrite fmap_cons in Hnd. apply NoDup_cons in Hnd as [Hi Hnd].
    cbn [omap list_omap].
    destruct (completedScrape cfg browser urlEntries (w, i)) as [[url r]|] eqn:Hc;
      [|by apply IH].
    rewrite fmap_cons. apply NoDup_cons. split; [|by apply IH].
    intros Hin. apply list_elem_of_fmap in Hin as ([url' r'] & Hurl & Hin).
    cbn in Hurl. subst url'.
    apply list_elem_of_omap in Hin as ([w' i'] & Hin' & Hc').
    unfold completedScrape in Hc, Hc'. cbn [fst snd] in Hc, Hc'.
    repeat case_bool_decide; try done.
    destruct (urlEntries !! i) as [[u1 row1]|] eqn:Hentry; [|done].
    destruct (urlEntries !! i') as [[u2 row2]|] eqn:Hentry'; [|done].
    injection Hc as -> _. injection Hc' as -> _.
    assert (i = i') as ->.
    { apply (NoDup_lookup urlEntries.*1 i i' url Hurls);
        rewrite list_lookup_fmap;
        [exact (f_equal (fmap fst) Hentry)|exact (f_equal (fmap fst) Hentry')]. }
    apply Hi. apply list_elem_of_fmap. by exists (w', i').
Qed.

(** The recorded results do not depend on the order of completion. *)
Lemma scrapeAll_permutation cfg browser rows sched1 sched2 :
  NoDup sched1.*2 → sched1 ≡ₚ sched2 →
  scrapeAll cfg browser (collectUniqueUrls rows) sched1
  = scrapeAll cfg browser (collectUniqueUrls rows) sched2.
Proof.
  intros Hnd Hperm. rewrite !scrapeAll_list_to_map.
  apply list_to_map_proper.
  - rewrite reverse_Permutation. apply completed_keys_NoDup; [|done].
    apply collectUniqueUrls_invariant.
  - rewrite !reverse_Permutation. by apply omap_Permutation.
Qed.

End Scheduler.

(** ** Splitting texts *)

Section Splitting.

Implicit Types (c : ascii) (s n q : string).

Lemma split_not_nil c s : Js.split c s ≠ [].
Proof.
  induction s as [|a s IH]; cbn [Js.split]; [done|].
  case_decide; [done|]. by destruct (Js.split c s).
Qed.

Lemma join_cons_cons c p p' ps :
  Js.join c (p :: p' :: ps) = p +:+ String c (Js.join c (p' :: ps)).
Proof. reflexivity. Qed.

(** Joining the pieces with the separator gives the text back. *)
Lemma split_join c s : Js.join c (Js.split c s) = s.
Proof.
  induction s as [|a s IH]; cbn [Js.split]; [done|].
  pose proof (split_not_nil c s) as Hne.
  destruct (Js.split c s) as [|p ps]; [done|].
  case_decide as Ha.
  - subst a. rewrite join_cons_cons, IH. done.
  - destruct ps as [|p' ps].
    + cbn in IH. subst p. done.
    + rewrite join_cons_cons in *. by rewrite <- IH.
Qed.

(** No piece holds the separator. *)
Lemma split_pieces c s : Forall (λ p, Js.includes c p = false) (Js.split c s).
Proof.
  induction s as [|a s IH]; cbn [Js.split].
  - by apply Forall_singleton.
  - case_decide as Ha.
    + apply Forall_cons. done.
    + pose proof (split_not_nil c s) as Hne.
      destruct (Js.split c s) as [|p ps]; [done|].
      apply Forall_cons in IH as [Hp Hps]. apply Forall_cons.
      split; [|done]. cbn [Js.includes]. by rewrite decide_False.
Qed.

Lemma split_bare c s : Js.includes c s = false → Js.split c s = [s].
Proof.
  induction s as [|a s IH]; cbn [Js.split Js.includes]; [done|].
  case_decide; [done|]. intros Hs. by rewrite IH.
Qed.

Lemma split_at_first c n q :
  Js.includes c n = false →
  Js.split c (n +:+ String c q) = n :: Js.split c q.
Proof.
  induction n as [|a n IH].
  - intros _. change ("" +:+ String c q) with (String c q).
    cbn [Js.split]. by rewrite decide_True.
  - change (String a n +:+ String c q) with (String a (n +:+ String c q)).
    cbn [Js.split Js.includes].
    case_decide; [done|]. intros Hn. by rewrite IH.
Qed.

Lemma includes_at c n q : Js.includes c (n +:+ String c q) = true.
Proof.
  induction n as [|a n IH].
  - change ("" +:+ String c q) with (String c q).
    cbn [Js.includes]. by rewrite decide_True.
  - change (String a n +:+ String c q) with (String a (n +:+ String c q)).
    cbn [Js.includes]. by case_decide.
Qed.

Lemma truthy_spec s : Js.truthy s = true ↔ s ≠ "".
Proof. destruct s; cbn; naive_solver. Qed.

Lemma parseSelectors_entries spec :
  parseSelectors spec =
    filter (λ entry, entry ≠ "") (Js.trim <$> Js.split ","%char spec).
Proof.
  unfold parseSelectors. apply list_filter_iff. intros entry.
  rewrite <- truthy_spec. by destruct (Js.truthy entry).
Qed.

(** An entry with one equals sign: the trimmed name and the trimmed
    query, unless the query is empty. *)
Lemma parseField_named n q :
  Js.includes "="%char n = false → Js.includes "="%char q = false →
  parseField (n +:+ "=" +:+ q) =
    if Js.truthy (Js.trim q) then Some (Js.trim n, Js.trim q) else None.
Proof.
  intros Hn Hq. unfold parseField, nameAndQuery, Js.split_limit.
  change (n +:+ "=" +:+ q) with (n +:+ String "="%char q).
  rewrite includes_at, split_at_first, split_bare by done.
  done.
Qed.

Lemma parseField_bare entry :
  entry ≠ "" → Js.includes "="%char entry = false →
  parseField entry = Some ("data", entry).
Proof.
  intros Hne%truthy_spec Hbare. unfold parseField, nameAndQuery.
  rewrite Hbare. cbn [snd]. by rewrite Hne.
Qed.

End Splitting.

(* ===================================================================== *)
(** * The engine's guarantees *)
(* ===================================================================== *)

(** ** Log buffer *)

(** C4. The log buffer never holds more than 500 entries: after any
    sequence of appends, from the empty buffer of a new engine or from any
    buffer within the cap, it holds at most 500; and an append made when it
    holds 500 drops the 100 oldest entries and keeps the new one, which
    leaves 401. *)
Theorem log_buffer_capped (calls : list LogCall) (e : Engine) (c : LogCall) :
  length (logMessages (log_all calls new_engine)) ≤ 500
  ∧ (length (logMessages e) ≤ 500 →
     length (logMessages (log_all calls e)) ≤ 500)
  ∧ (length (logMessages e) = 500 →
     logMessages (log_call e c) = drop 100 (logMessages e) ++ [log_entry c]
     ∧ length (logMessages (log_call e c)) = 401).
Proof.
  split; [|split].
  - apply log_all_bounded. cbn. lia.
  - apply log_all_bounded.
  - intros Hlen. rewrite log_call_at_cap by done. split; [done|].
    rewrite length_app, length_drop, Hlen. cbn. lia.
Qed.

Lemma log_buffer_capped_full_buffer :
  length (logMessages Sample.full_engine) = 500
  ∧ length (logMessages (log_call Sample.full_engine Sample.a_call)) = 401.
Proof.
  split; [reflexivity|].
  apply (log_buffer_capped [] Sample.full_engine Sample.a_call).
  reflexivity.
Defined.

(** ** Output table *)

(** C3. The output table has one row per input row, in the input order:
    for any result map the table is as long as the input, its i-th row is
    built from the i-th input row and carries that row's own columns; and
    the table of a run is the same whatever the order in which the scrapes
    completed. *)
Theorem output_rows_follow_input `{Path} cfg browser
    (inputRows : list InputRow) (m : ScrapeMap) (sched1 sched2 : Schedule) :
  NoDup sched1.*2 → sched1 ≡ₚ sched2 →
  let table sched :=
    generateOutputCsv inputRows
      (mapResultsBack inputRows
         (scrapeAll cfg browser (collectUniqueUrls inputRows) sched)) in
  table sched1 = table sched2
  ∧ length (generateOutputCsv inputRows m) = length inputRows
  ∧ ∀ (i : nat) row,
      inputRows !! i = Some row →
      ∃ out,
        generateOutputCsv inputRows m !! i = Some out
        ∧ out = outputRow (finalHeaders inputRows) m row
        ∧ (NoDup (Js.keys row) →
           ∀ h, h ∈ Js.keys row → h ∉ RESULT_HEADERS →
                cell h out = Js.or_empty (Js.get h row)).
Proof.
  intros Hnd Hperm table. split; [|split].
  - unfold table. by rewrite (scrapeAll_permutation _ _ _ sched1 sched2).
  - apply generateOutputCsv_length.
  - intros i row Hi. eexists. rewrite generateOutputCsv_lookup, Hi.
    split; [done|]. split; [done|]. intros Hkeys h Hh Hres.
    apply outputRow_input_cell; [done| |done].
    apply elem_of_finalHeaders. right. exists row. split; [|done].
    by eapply list_elem_of_lookup_2.
Qed.

Lemma output_rows_follow_input_example :
  let table sched :=
    generateOutputCsv [Sample.rowA; Sample.rowB; Sample.rowC]
      (mapResultsBack [Sample.rowA; Sample.rowB; Sample.rowC]
         (@scrapeAll Sample.plain_join Sample.config Sample.plain_browser
            (collectUniqueUrls [Sample.rowA; Sample.rowB; Sample.rowC]) sched)) in
  table [(1, 0); (2, 1)] = table [(2, 1); (1, 0)].
Proof.
  apply (@output_rows_follow_input Sample.plain_join Sample.config
           Sample.plain_browser [Sample.rowA; Sample.rowB; Sample.rowC] ∅
           [(1, 0); (2, 1)] [(2, 1); (1, 0)]).
  - compute_done.
  - apply perm_swap.
Defined.

(** C9. A row whose URL has no entry in the result map at aggregation (in
    particular a row with an empty URL, which is never put in the work
    list, and a row whose URL no completed scrape was for) still gets its
    output row, with status ERROR and the fixed internal-error message. *)
Theorem missing_url_gets_error_row `{Path} cfg browser
    (inputRows : list InputRow) (sched : Schedule) (i : nat) row :
  let scrapeResults :=
    scrapeAll cfg browser (collectUniqueUrls inputRows) sched in
  let table :=
    generateOutputCsv inputRows (mapResultsBack inputRows scrapeResults) in
  inputRows !! i = Some row →
  scrapeResults !! URL row = None
  ∨ URL row = ""
  ∨ (∀ c entry, c ∈ sched →
       collectUniqueUrls inputRows !! c.2 = Some entry → entry.1 ≠ URL row) →
  length table = length inputRows
  ∧ ∃ out,
      table !! i = Some out
      ∧ cell "Status" out = "ERROR"
      ∧ cell "ErrorMessage" out = "Internal error: URL not found in results map.".
Proof.
  intros scrapeResults table Hi Hmissing.
  assert (scrapeResults !! URL row = None) as Hnone.
  { destruct Hmissing as [?|[Hblank|Hnever]]; [done| |].
    - destruct (scrapeResults !! URL row) as [r|] eqn:Hr; [|done].
      apply scrapeAll_lookup_Some in Hr as (w & j & row' & _ & Hj & _).
      rewrite Hblank in Hj. by apply collectUniqueUrls_truthy in Hj.
    - destruct (scrapeResults !! URL row) as [r|] eqn:Hr; [|done].
      apply scrapeAll_lookup_Some in Hr as (w & j & row' & Hc & Hj & _).
      by destruct (Hnever (w, j) (URL row, row') Hc Hj). }
  split; [apply generateOutputCsv_length|].
  eexists. unfold table. rewrite generateOutputCsv_lookup, Hi.
  split; [done|].
  pose proof (mapResultsBack_None inputRows _ _ Hnone) as Hfinal.
  split.
  - rewrite outputRow_status, Hfinal; [done|].
    apply result_header_final. set_solver.
  - apply outputRow_missing_message; [|done].
    apply result_header_final. set_solver.
Qed.

Lemma missing_url_gets_error_row_example :
  let table :=
    generateOutputCsv [Sample.rowA; Sample.row "D" ""]
      (mapResultsBack [Sample.rowA; Sample.row "D" ""]
         (@scrapeAll Sample.plain_join Sample.config Sample.plain_browser
            (collectUniqueUrls [Sample.rowA; Sample.row "D" ""]) [(1, 0)])) in
  length table = 2
  ∧ ∃ out,
      table !! 1 = Some out
      ∧ cell "Status" out = "ERROR"
      ∧ cell "ErrorMessage" out = "Internal error: URL not found in results map.".
Proof.
  apply (@missing_url_gets_error_row Sample.plain_join Sample.config
           Sample.plain_browser [Sample.rowA; Sample.row "D" ""] [(1, 0)]
           1 (Sample.row "D" "")).
  - reflexivity.
  - right. left. reflexivity.
Defined.

(** C10. No row of an output table has status SKIPPED: whenever a run
    writes its table, after exhaustion or after a cancellation, every row's
    status is SUCCESS, ERROR or DUPLICATE. A run that fails writes no
    table. *)
Theorem no_row_is_skipped `{Path} cfg host (table : list OutputRow) :
  start cfg host = Some table →
  Forall (λ out, cell "Status" out ∈ ["SUCCESS"; "ERROR"; "DUPLICATE"]
                 ∧ cell "Status" out ≠ status_name SKIPPED) table.
Proof.
  unfold start. intros Hstart.
  destruct (parseInputCsv (csvFile host)) as [[uniqueUrls inputRows]|]; [|done].
  destruct (imageDir host); [|done].
  destruct (launch host) as [browser|]; [|done].
  destruct (writeFile host); [|done].
  injection Hstart as <-.
  unfold generateOutputCsv. apply Forall_fmap, Forall_forall.
  intros row _. cbn [compose].
  rewrite outputRow_status by (apply result_header_final; set_solver).
  rewrite mapResultsBack_lookup.
  destruct (scrapeAll cfg browser uniqueUrls (completions host) !! URL row)
    as [r|] eqn:Hr.
  - apply scrapeAll_lookup_Some in Hr as (w & j & row' & _ & _ & ->).
    case_bool_decide; cbn [fmap option_fmap option_map asDuplicate Status].
    + set_solver.
    + destruct (scrapeUrl_not_skipped cfg (Some browser) w (URL row) row')
        as [-> | ->]; set_solver.
  - case_bool_decide; set_solver.
Qed.

Lemma no_row_is_skipped_example :
  Forall (λ out, cell "Status" out ∈ ["SUCCESS"; "ERROR"; "DUPLICATE"]
                 ∧ cell "Status" out ≠ status_name SKIPPED)
    (default []
       (@start Sample.plain_join Sample.config
          (Sample.host [Sample.rowA; Sample.row "D" ""] [(1, 0)]))).
Proof.
  apply (@no_row_is_skipped Sample.plain_join Sample.config
           (Sample.host [Sample.rowA; Sample.row "D" ""] [(1, 0)])).
  reflexivity.
Defined.

(** ** Page pipeline *)

(** The selectors are provided exactly when one of the four specs is not
    empty. *)
Lemma selectorsProvided_spec cfg row :
  selectorsProvided cfg row = true ↔
  CSSSelector row ≠ "" ∨ XPathSelector row ≠ ""
  ∨ css (selectors cfg) ≠ "" ∨ xpath (selectors cfg) ≠ "".
Proof.
  unfold selectorsProvided, Js.or_else.
  destruct (CSSSelector row), (XPathSelector row), (css (selectors cfg)),
    (xpath (selectors cfg)); cbn; naive_solver.
Qed.

(** C5. The extraction stage picks one strategy. When the row or the
    configuration gives a non-empty CSS or XPath selector spec, no call of
    the scrape is made by the AI routine, and when the stage is reached the
    selector extraction is entered and looks up exactly the fields that the
    specs ask for (the row's spec if it has one, else the configuration's;
    the CSS fields first). Otherwise, when the AI fallback is enabled, no
    call is made by the selector extraction, and when the stage is reached
    the AI routine is entered and, an API key being configured, reads the
    page. Otherwise neither makes any call and the extracted data stay the
    empty object. The stage is reached when no fatal failure ends the
    scrape before it. *)
Theorem extraction_picks_one_strategy `{Path} cfg (browser : option Browser)
    workerId url row :
  let out := scrapeUrl cfg browser workerId url row in
  let supplied :=
    CSSSelector row ≠ "" ∨ XPathSelector row ≠ ""
    ∨ css (selectors cfg) ≠ "" ∨ xpath (selectors cfg) ≠ "" in
  let reached := fatal_failure browser url row = None in
  (supplied →
     (∀ ev, ev ∈ out.2 → origin ev ≠ Some AiSmartScrape)
     ∧ (reached →
          Entered ScrapeCustomData ∈ out.2
          ∧ lookups out.2 =
              asked css_kind
                (parseSelectors
                   (Js.or_else (CSSSelector row) (css (selectors cfg))))
              ++ asked xpath_kind
                   (parseSelectors
                      (Js.or_else (XPathSelector row) (xpath (selectors cfg))))))
  ∧ (¬ supplied → useAISmartScrape cfg = true →
     (∀ ev, ev ∈ out.2 → origin ev ≠ Some ScrapeCustomData)
     ∧ (reached →
          Entered AiSmartScrape ∈ out.2
          ∧ (aiApiKey cfg ≠ "" → OuterHtml ∈ out.2)))
  ∧ (¬ supplied → useAISmartScrape cfg = false →
     (∀ ev, ev ∈ out.2 →
        origin ev ≠ Some ScrapeCustomData ∧ origin ev ≠ Some AiSmartScrape)
     ∧ ScrapedData out.1 = "{}").
Proof.
  intros out supplied reached. subst out reached.
  assert (supplied ↔ selectorsProvided cfg row = true) as Hsupp
    by (symmetry; apply selectorsProvided_spec).
  pose proof (scrapeUrl_outcome cfg browser workerId url row) as Hout.
  assert (∀ r ev, within r ev → ∀ r', r' ≠ r → origin ev ≠ Some r') as Hwithin.
  { intros r ev Hev r' Hne. destruct ev; cbn in *; congruence. }
  assert (∀ tr, Forall outside_extraction tr → lookups tr = []) as Hquiet.
  { intros tr Htr. apply lookups_none. eapply Forall_impl; [exact Htr|].
    intros ev [Hev _] kind query ->. by apply Hev. }
  destruct (fatal_failure browser url row) as [e|].
  - destruct Hout as (tr & -> & Htr). cbn [fst snd].
    rewrite Forall_forall in Htr. unfold outside_extraction in Htr.
    split; [|split].
    + intros _. split; [|done]. intros ev Hev. apply Htr in Hev. tauto.
    + intros _ _. split; [|done]. intros ev Hev. apply Htr in Hev. tauto.
    + intros _ _. split; [|done]. intros ev Hev. by apply Htr in Hev.
  - destruct Hout as (b & baseName & logo & after & pre & ext
                      & -> & Hname & -> & Hpre & Hext).
    cbn [fst snd]. unfold extraction in Hext.
    pose proof (Hquiet pre Hpre) as Hlook_pre.
    rewrite Forall_forall in Hpre. unfold outside_extraction in Hpre.
    destruct (selectorsProvided cfg row) eqn:Hsel.
    + destruct Hext as (Hhead & Hall & Hlook).
      split; [|split; intros Hno; by destruct Hno; apply Hsupp].
      intros _. rewrite Forall_forall in Hall. split.
      * intros ev [Hev|[Hev|Hev]%elem_of_app]%elem_of_app.
        -- apply Hpre in Hev. tauto.
        -- apply (Hwithin ScrapeCustomData); [by apply Hall|done].
        -- apply list_elem_of_singleton in Hev as ->. done.
      * intros _. split.
        -- apply elem_of_app. right. apply elem_of_app. left.
           destruct ext as [|ev ext]; [done|]. injection Hhead as ->. left.
        -- rewrite !lookups_app, Hlook_pre, Hlook. cbn [app].
           change (lookups [ClosePage]) with (@nil (SelectorKind * string)).
           by rewrite app_nil_r.
    + split; [intros Hs; apply Hsupp in Hs; congruence|].
      destruct (useAISmartScrape cfg) eqn:Hai.
      * destruct Hext as (Hhead & Hall & _ & Hread).
        rewrite Forall_forall in Hall.
        split; [|by intros _ [=]]. intros _ _. split.
        -- intros ev [Hev|[Hev|Hev]%elem_of_app]%elem_of_app.
           ++ apply Hpre in Hev. tauto.
           ++ apply (Hwithin AiSmartScrape); [by apply Hall|done].
           ++ apply list_elem_of_singleton in Hev as ->. done.
        -- intros _. split.
           ++ apply elem_of_app. right. apply elem_of_app. left.
              destruct ext as [|ev ext]; [done|]. injection Hhead as ->. left.
           ++ intros Hkey%truthy_spec.
              apply elem_of_app. right. apply elem_of_app. left.
              by apply Hread.
      * destruct Hext as [-> ->]. split; [by intros _ [=]|].
        intros _ _. split; [|done].
        intros ev [Hev|Hev]%elem_of_app.
        -- apply Hpre in Hev. tauto.
        -- cbn in Hev. apply list_elem_of_singleton in Hev as ->. done.
Qed.

Lemma extraction_picks_one_strategy_example :
  Entered ScrapeCustomData
    ∈ (@scrapeUrl Sample.plain_join Sample.selector_config
         (Some Sample.answered_browser) 1 "u1" Sample.rowA).2
  ∧ lookups (@scrapeUrl Sample.plain_join Sample.selector_config
               (Some Sample.answered_browser) 1 "u1" Sample.rowA).2
    = [(css_kind, "h1")].
Proof.
  pose proof (@extraction_picks_one_strategy Sample.plain_join
                Sample.selector_config (Some Sample.answered_browser) 1 "u1"
                Sample.rowA) as Hthm.
  cbv zeta in Hthm. destruct Hthm as (Hselectors & _ & _).
  destruct Hselectors as [_ Hruns]; [right; right; left; discriminate|].
  destruct (Hruns eq_refl) as [Hentered Hlook].
  split; [exact Hentered|]. rewrite Hlook. reflexivity.
Defined.



(** A row whose [BaseName] cell is empty ends in ERROR with the message of
    the TypeError, although the page opens, loads and could be captured. *)
Example blank_base_name_is_fatal :
  newPage (Sample.plain_browser "u1") = Done ()
  ∧ goto (Sample.plain_browser "u1") = Done ()
  ∧ screenshot (Sample.plain_browser "u1") = Done ()
  ∧ (@scrapeUrl Sample.plain_join Sample.config
       (Some Sample.plain_browser) 1 "u1" Sample.blank_name_row).1
    = mkScrapeResult "" "" "{}" ERROR
        "Cannot read properties of null (reading 'replace')".
Proof. repeat (split; [reflexivity|]). vm_compute. reflexivity. Qed.


(** C7. When the AI fallback runs (no selector spec in the row or in the
    configuration, fallback enabled, no fatal failure before the
    extraction), the scrape ends in SUCCESS whatever the AI call does,
    and the extracted data are the JSON text the call returned, as it is,
    or the empty object when the call failed. In particular a missing API
    key, a request that throws, an HTTP error and an unreadable or empty
    answer each leave the empty object. *)
Theorem ai_fallback_data `{Path} cfg (b : Browser) workerId url row :
  CSSSelector row = "" → XPathSelector row = "" →
  css (selectors cfg) = "" → xpath (selectors cfg) = "" →
  useAISmartScrape cfg = true →
  fatal_failure (Some b) url row = None →
  let out := scrapeUrl cfg (Some b) workerId url row in
  Entered AiSmartScrape ∈ out.2
  ∧ Status out.1 = SUCCESS
  ∧ ScrapedData out.1 = default "{}" (aiOutcome (aiApiKey cfg) (b url))
  ∧ (aiApiKey cfg = "" → ScrapedData out.1 = "{}")
  ∧ (∀ e, outerHTML (b url) = Fails e → ScrapedData out.1 = "{}")
  ∧ (∀ pageHtml,
       outerHTML (b url) = Done pageHtml →
       let sent :=
         Js.substring0 (String.length pageHtml `min` HTML_BUDGET) pageHtml in
       (∀ e, fetch (b url) sent = Fails e → ScrapedData out.1 = "{}")
       ∧ (∀ response,
            fetch (b url) sent = Done response →
            (ok response = false → ScrapedData out.1 = "{}")
            ∧ (∀ e, json response = Fails e → ScrapedData out.1 = "{}")
            ∧ (∀ v, json response = Done v → Js.or_empty v = "" →
                    ScrapedData out.1 = "{}")
            ∧ (∀ text,
                 aiApiKey cfg ≠ "" → ok response = true →
                 json response = Done (Js.Str text) → text ≠ "" →
                 ScrapedData out.1 = text))).
Proof.
  intros Hcss Hxpath Hgcss Hgxpath Hai Hfatal out. subst out.
  assert (selectorsProvided cfg row = false) as Hsel.
  { unfold selectorsProvided. by rewrite Hcss, Hxpath, Hgcss, Hgxpath. }
  pose proof (scrapeUrl_outcome cfg (Some b) workerId url row) as Hout.
  rewrite Hfatal in Hout.
  destruct Hout as (b' & baseName & logo & after & pre & ext
                    & [= <-] & _ & -> & _ & Hext).
  unfold extraction in Hext. rewrite Hsel, Hai in Hext.
  destruct Hext as (Hhead & _ & -> & _). cbn [fst snd ScrapedData Status].
  split.
  { apply elem_of_app. right. apply elem_of_app. left.
    destruct ext as [|ev ext]; [done|]. injection Hhead as ->. left. }
  split; [done|]. split; [done|].
  unfold aiOutcome. split; [by intros ->|]. split.
  { intros e ->. by destruct (Js.truthy (aiApiKey cfg)). }
  intros pageHtml ->. cbv zeta. split.
  { intros e ->. by destruct (Js.truthy (aiApiKey cfg)). }
  intros response ->. repeat split.
  - intros ->. by destruct (Js.truthy (aiApiKey cfg)).
  - intros e ->. by destruct (Js.truthy (aiApiKey cfg)), (ok response).
  - intros v -> Hv.
    destruct (Js.truthy (aiApiKey cfg)), (ok response), v as [text| |];
      try done.
    cbn in Hv. by subst text.
  - intros text Hkey%truthy_spec -> -> Htext%truthy_spec.
    by rewrite Hkey, Htext.
Qed.

Lemma ai_fallback_data_example :
  ScrapedData (@scrapeUrl Sample.plain_join Sample.ai_config
                 (Some Sample.plain_browser) 1 "u1" Sample.rowA).1 = "{}"
  ∧ Status (@scrapeUrl Sample.plain_join Sample.ai_config
              (Some Sample.plain_browser) 1 "u1" Sample.rowA).1 = SUCCESS.
Proof.
  pose proof (@ai_fallback_data Sample.plain_join Sample.ai_config
                Sample.plain_browser 1 "u1" Sample.rowA
                eq_refl eq_refl eq_refl eq_refl eq_refl eq_refl) as Hthm.
  cbv zeta in Hthm. destruct Hthm as (_ & Hstatus & _ & _ & _ & Hpage).
  split; [|exact Hstatus].
  destruct (Hpage "<body>hi</body>" eq_refl) as [Hthrows _].
  apply (Hthrows (Js.mkError "TypeError" "fetch failed")). reflexivity.
Defined.

(** ** Selector specs *)

(** C8, as the code has it. A selector spec is cut at its commas, each
    piece is trimmed and the empty ones are dropped, in order. An entry
    with one equals sign gives the trimmed text before it as the field name
    and the trimmed text after it as the query, and is skipped when that
    query is empty; an entry without an equals sign gives the field [data]
    with the entry as its query. The spec [price=.price, .title] gives
    [price] with query [.price] and [data] with query [.title]. *)
Theorem selector_spec_parsing (spec : string) :
  Js.join ","%char (Js.split ","%char spec) = spec
  ∧ Forall (λ piece, Js.includes ","%char piece = false) (Js.split ","%char spec)
  ∧ parseSelectors spec =
      filter (λ entry, entry ≠ "") (Js.trim <$> Js.split ","%char spec)
  ∧ (∀ entry fieldName query,
       entry ∈ parseSelectors spec →
       entry = fieldName +:+ "=" +:+ query →
       Js.includes "="%char fieldName = false →
       Js.includes "="%char query = false →
       parseField entry =
         if Js.truthy (Js.trim query)
         then Some (Js.trim fieldName, Js.trim query) else None)
  ∧ (∀ entry,
       entry ∈ parseSelectors spec →
       Js.includes "="%char entry = false →
       parseField entry = Some ("data", entry))
  ∧ parseField <$> parseSelectors "price=.price, .title"
    = [Some ("price", ".price"); Some ("data", ".title")].
Proof.
  split; [apply split_join|]. split; [apply split_pieces|].
  split; [apply parseSelectors_entries|]. split; [|split].
  - intros entry fieldName query _ -> Hname Hquery.
    by apply parseField_named.
  - intros entry Hin Hbare. apply parseField_bare; [|done].
    rewrite parseSelectors_entries in Hin.
    by apply list_elem_of_filter in Hin as [? _].
  - reflexivity.
Qed.

Lemma selector_spec_parsing_example :
  parseField "price=.price" = Some ("price", ".price")
  ∧ parseField ".title" = Some ("data", ".title").
Proof.
  pose proof (selector_spec_parsing "price=.price, .title") as Hthm.
  destruct Hthm as (_ & _ & _ & Hnamed & Hbare & _).
  split.
  - apply (Hnamed "price=.price" "price" ".price"); [compute_done|done..].
  - apply (Hbare ".title"); [compute_done|done].
Defined.

(** C8 as it is written fails: the entry [price=] is a trimmed, non-empty
    entry made of a name, an equals sign and a query, and it gives no field
    at all, as the loop skips an entry whose query is empty. *)
Lemma entry_with_empty_query_is_skipped :
  parseSelectors "price=" = ["price" +:+ "=" +:+ ""]
  ∧ Js.includes "="%char "price" = false
  ∧ parseField ("price" +:+ "=" +:+ "") = None
  ∧ parseField ("price" +:+ "=" +:+ "") ≠ Some ("price", "").
Proof. by vm_compute. Qed.

(** [split('=', 2)] keeps the first two pieces and drops the rest. *)
Example query_with_equals_sign :
  parseField "link=a[href=x]" = Some ("link", "a[href").
Proof. reflexivity. Qed.

(** ** Duplicate rows *)

(** C1, on the code. Two rows share the URL [u1], its scrape succeeds, and
    the run completes: both output rows, the first occurrence included,
    have status DUPLICATE, and no row of the URL keeps SUCCESS or ERROR. *)
Theorem first_occurrence_is_relabelled :
  (@scrapeUrl Sample.plain_join Sample.config (Some Sample.plain_browser)
     1 "u1" Sample.rowA).1
  = mkScrapeResult "images/A.png" "" "{}" SUCCESS ""
  ∧ (λ table : list OutputRow,
       (λ out, (cell "BaseName" out, cell "Status" out,
                cell "ScreenshotFile" out, cell "LogoFile" out)) <$> table)
      <$> @start Sample.plain_join Sample.config
            (Sample.host [Sample.rowA; Sample.rowB] [(1, 0)])
    = Some [("A", "DUPLICATE", "images/A.png", "");
            ("B", "DUPLICATE", "images/A.png", "")].
Proof. split; vm_compute; reflexivity. Qed.

(** C2, on the code. In the three-row example the row C is the first and
    only row of [u2] and its scrape succeeds, yet its output row has status
    DUPLICATE and the note of a shared result; only a first-seen row at the
    first position of the input keeps the status of its scrape. *)
Theorem first_seen_row_is_relabelled :
  (@scrapeUrl Sample.plain_join Sample.config (Some Sample.plain_browser)
     2 "u2" Sample.rowC).1
  = mkScrapeResult "images/C.png" "" "{}" SUCCESS ""
  ∧ (λ table : list OutputRow,
       (λ out, (cell "BaseName" out, cell "Status" out,
                cell "ErrorMessage" out)) <$> table)
      <$> @start Sample.plain_join Sample.config
            (Sample.host [Sample.rowA; Sample.rowB; Sample.rowC]
                         [(2, 1); (1, 0)])
    = Some [("A", "DUPLICATE", DUPLICATE_NOTE);
            ("B", "DUPLICATE", DUPLICATE_NOTE);
            ("C", "DUPLICATE", DUPLICATE_NOTE)].
Proof. split; vm_compute; reflexivity. Qed.

(** The defect behind both: the loop relabels the URL of every row that is
    not at the first position, whether or not the row is a later
    occurrence, and the relabelled entry is the one every row of that URL
    reads. *)
Lemma every_later_row_relabels_its_url (inputRows : list InputRow)
    (m : ScrapeMap) (i j : nat) row row' r :
  inputRows !! i = Some row → inputRows !! j = Some row' →
  0 < j → URL row = URL row' → m !! URL row = Some r →
  cell "Status" (outputRow (finalHeaders inputRows)
                   (mapResultsBack inputRows m) row) = "DUPLICATE".
Proof.
  intros Hi Hj Hpos Hurl Hm.
  rewrite outputRow_status by (apply result_header_final; set_solver).
  rewrite mapResultsBack_lookup, Hm.
  rewrite bool_decide_eq_true_2; [done|].
  rewrite Hurl. apply list_elem_of_fmap. exists row'. split; [done|].
  destruct inputRows as [|row0 rest]; [done|]. destruct j as [|j]; [lia|].
  cbn [tail]. by eapply list_elem_of_lookup_2.
Qed.

(* ===================================================================== *)
(** * More of the engine *)
(* ===================================================================== *)

(** ** Reporter *)

Section ReporterMore.

Implicit Types (e : Engine) (c : LogCall).

Lemma log_call_kept e c :
  ∃ older, logMessages (log_call e c) = older ++ [log_entry c]
           ∧ older `suffix_of` logMessages e.
Proof.
  rewrite logMessages_log_call. case_decide as Hlen.
  - rewrite length_app in Hlen. cbn in Hlen.
    exists (drop 100 (logMessages e)). split; [|apply suffix_drop].
    rewrite drop_app_le by lia. done.
  - exists (logMessages e). done.
Qed.

End ReporterMore.

(** X1. Every call of [log] sends one progress update. The update carries
    the last entries of the buffer, at most 50 of them, ending with the
    entry just logged; the counters are those of the engine and the status
    is [Running...] while the engine runs and [Idle] otherwise. *)
Theorem log_sends_one_update (e : Engine) (c : LogCall) :
  ∃ update,
    sent (log_call e c) = sent e ++ [update]
    ∧ last (logs update) = Some (log_entry c)
    ∧ last (logMessages (log_call e c)) = Some (log_entry c)
    ∧ length (logs update) = length (logMessages (log_call e c)) `min` 50
    ∧ logs update `suffix_of` logMessages (log_call e c)
    ∧ processed update = processedUrls e
    ∧ total update = totalUrls e
    ∧ status update = (if running e then "Running..." else "Idle").
Proof.
  destruct (log_call_kept e c) as (older & Hkept & _).
  eexists. split; [reflexivity|]. cbn [logs processed total status].
  change (logMessages
            (mkEngine
               (if decide (500 < length (logMessages e ++
                    [mkLogMessage (call_level c)
                       (fullMessage (call_message c) (call_detail c))
                       (call_now c)]))
                then drop 100 (logMessages e ++
                    [mkLogMessage (call_level c)
                       (fullMessage (call_message c) (call_detail c))
                       (call_now c)])
                else logMessages e ++
                    [mkLogMessage (call_level c)
                       (fullMessage (call_message c) (call_detail c))
                       (call_now c)])
               (running e) (totalUrls e) (processedUrls e) (errorCount e)
               (sent e)))
    with (logMessages (log_call e c)).
  unfold slice_last. rewrite Hkept.
  split.
  { rewrite length_app. cbn [length].
    rewrite drop_app_le by lia. apply last_snoc. }
  split; [apply last_snoc|].
  split; [rewrite length_drop, length_app; cbn [length]; lia|].
  split; [apply suffix_drop|]. done.
Qed.

(** X2. Trimming only ever drops the oldest entries: after any sequence of
    calls of [log] the buffer is an end piece of everything that was in it
    or was logged since, and the most recent 401 entries are never lost. *)
Theorem log_buffer_keeps_recent (calls : list LogCall) (e : Engine) :
  logMessages (log_all calls e)
    `suffix_of` (logMessages e ++ (log_entry <$> calls))
  ∧ (length (logMessages e) + length calls) `min` 401
    ≤ length (logMessages (log_all calls e)).
Proof.
  revert e. induction calls as [|c calls IH]; intros e.
  - cbn. rewrite app_nil_r. split; [done|lia].
  - destruct (IH (log_call e c)) as [Hsuf Hlen].
    destruct (log_call_kept e c) as (older & Hkept & Holder).
    change (log_all (c :: calls) e) with (log_all calls (log_call e c)).
    split.
    + etrans; [exact Hsuf|]. rewrite fmap_cons, Hkept.
      rewrite <- (assoc_L (++)).
      by apply (suffix_app older (logMessages e) (log_entry c :: (log_entry <$> calls))).
    + assert ((length (logMessages e) + 1) `min` 401
              ≤ length (logMessages (log_call e c))) as Hstep.
      { rewrite logMessages_log_call.
        case_decide as Hcap; rewrite ?length_drop, !length_app in *;
          cbn [length] in *; lia. }
      cbn [length]. lia.
Qed.

(** ** Input table *)

Section InputTable.

Implicit Types (rows : list InputRow) (row : InputRow) (o : Js.Obj) (k url : string).

Lemma get_missing k o : k ∉ Js.keys o → Js.get k o = Js.Undefined.
Proof.
  unfold Js.keys. induction o as [|[k0 v0] o IH]; cbn; [done|].
  rewrite not_elem_of_cons. intros [Hne Hk].
  rewrite decide_False by congruence. by apply IH.
Qed.

(** Reading a spread: the second object wins on its own keys. *)
Lemma get_spread o1 o2 k :
  NoDup (Js.keys o2) →
  Js.get k (Js.spread o1 o2) =
    if bool_decide (k ∈ Js.keys o2) then Js.get k o2 else Js.get k o1.
Proof.
  unfold Js.spread, Js.keys. revert o1.
  induction o2 as [|[k0 v0] o2 IH]; intros o1 Hnd; cbn [foldl fst snd].
  - by rewrite bool_decide_eq_false_2 by apply not_elem_of_nil.
  - rewrite fmap_cons in Hnd. apply NoDup_cons in Hnd as [Hk0 Hnd].
    rewrite IH by done. rewrite get_set. cbn [Js.get fmap list_fmap fst].
    destruct (decide (k0 = k)) as [->|Hne].
    + rewrite (bool_decide_eq_false_2 (k ∈ o2.*1)) by done.
      rewrite bool_decide_eq_true_2; [done|left].
    + rewrite (bool_decide_ext (k ∈ k0 :: o2.*1) (k ∈ o2.*1)); [done|].
      rewrite elem_of_cons. naive_solver.
Qed.

Lemma collectUniqueUrls_snoc rows row :
  collectUniqueUrls (rows ++ [row]) =
    if Js.truthy (URL row)
       && negb (uniqueUrls_has (URL row) (collectUniqueUrls rows))
    then collectUniqueUrls rows ++ [(URL row, row)]
    else collectUniqueUrls rows.
Proof. unfold collectUniqueUrls. by rewrite foldl_app. Qed.

Lemma collectUniqueUrls_keys rows url :
  url ∈ (collectUniqueUrls rows).*1 ↔
  url ≠ "" ∧ ∃ row, row ∈ rows ∧ URL row = url.
Proof.
  induction rows as [|row rows IH] using rev_ind.
  - cbn. split; [by intros ?%elem_of_nil|].
    by intros (_ & row & ?%elem_of_nil & _).
  - rewrite collectUniqueUrls_snoc. unfold uniqueUrls_has.
    destruct (Js.truthy (URL row)) eqn:Hu; cbn [andb];
      [case_bool_decide as Hin; cbn [negb]|].
    + rewrite IH. split.
      * intros (? & r & ? & ?). split; [done|]. exists r.
        split; [|done]. apply elem_of_app. by left.
      * intros (? & r & [?|Hr%list_elem_of_singleton]%elem_of_app & <-).
        -- split; [done|]. by exists r.
        -- subst r. by apply IH.
    + rewrite fmap_app, elem_of_app, IH. cbn [fmap list_fmap fst].
      rewrite list_elem_of_singleton. split.
      * intros [(? & r & ? & ?)| ->].
        -- split; [done|]. exists r. split; [|done].
           apply elem_of_app. by left.
        -- split; [by apply truthy_spec|]. exists row. split; [|done].
           apply elem_of_app. right. by apply list_elem_of_singleton.
      * intros (? & r & [?|Hr%list_elem_of_singleton]%elem_of_app & <-).
        -- left. split; [done|]. by exists r.
        -- subst r. by right.
    + rewrite IH. split.
      * intros (? & r & ? & ?). split; [done|]. exists r.
        split; [|done]. apply elem_of_app. by left.
      * intros (Hne & r & [?|Hr%list_elem_of_singleton]%elem_of_app & <-).
        -- split; [done|]. by exists r.
        -- subst r. apply truthy_spec in Hne. congruence.
Qed.

End InputTable.

(** X3. The work list of [parseInputCsv] holds every non-empty URL of the
    input once, and no other; each URL is paired with the first input row
    that has it. *)
Theorem unique_urls_map_to_first_rows (inputRows : list InputRow) :
  NoDup (collectUniqueUrls inputRows).*1
  ∧ (∀ url, url ∈ (collectUniqueUrls inputRows).*1 ↔
            url ≠ "" ∧ ∃ row, row ∈ inputRows ∧ URL row = url)
  ∧ (∀ url row,
       (url, row) ∈ collectUniqueUrls inputRows →
       ∃ i : nat,
         inputRows !! i = Some row ∧ URL row = url
         ∧ ∀ (j : nat) row', j < i → inputRows !! j = Some row' → URL row' ≠ url).
Proof.
  split; [apply collectUniqueUrls_invariant|].
  split; [apply collectUniqueUrls_keys|].
  induction inputRows as [|last rows IH] using rev_ind.
  - intros url row Hin. by apply elem_of_nil in Hin.
  - intros url row. rewrite collectUniqueUrls_snoc. unfold uniqueUrls_has.
    assert ((url, row) ∈ collectUniqueUrls rows →
            ∃ i : nat, (rows ++ [last]) !! i = Some row ∧ URL row = url
              ∧ ∀ (j : nat) row', j < i → (rows ++ [last]) !! j = Some row' →
                                  URL row' ≠ url) as Hold.
    { intros Hin. destruct (IH url row Hin) as (i & Hi & Hurl & Hfirst).
      pose proof (lookup_lt_Some _ _ _ Hi) as Hlt.
      exists i. split; [by rewrite lookup_app_l|]. split; [done|].
      intros j row' Hj Hrow'. rewrite lookup_app_l in Hrow' by lia. eauto. }
    destruct (Js.truthy (URL last)) eqn:Hu; cbn [andb]; [|done].
    case_bool_decide as Hin; cbn [negb]; [done|].
    intros [?|Hnew%list_elem_of_singleton]%elem_of_app; [by apply Hold|].
    injection Hnew as -> ->.
    exists (length rows). split; [by rewrite list_lookup_middle|].
    split; [done|]. intros j row' Hj Hrow' Hsame.
    rewrite lookup_app_l in Hrow' by lia.
    apply Hin, collectUniqueUrls_keys. split; [by apply truthy_spec|].
    exists row'. split; [|done]. by eapply list_elem_of_lookup_2.
Qed.

Lemma unique_urls_map_to_first_rows_example :
  ∃ i : nat,
    [Sample.rowA; Sample.rowB; Sample.rowC] !! i = Some Sample.rowA
    ∧ URL Sample.rowA = "u1"
    ∧ ∀ (j : nat) row', j < i →
        [Sample.rowA; Sample.rowB; Sample.rowC] !! j = Some row' →
        URL row' ≠ "u1".
Proof.
  apply (unique_urls_map_to_first_rows [Sample.rowA; Sample.rowB; Sample.rowC]).
  vm_compute. left.
Defined.

(** X4. Normalising a parsed row keeps every column the row has as it is
    (the row is spread last, over the normalised fields); the defaults are
    only for columns the row lacks: [untitled] for [BaseName], the empty
    text for [URL], nothing for the selectors. The URL read from the row
    does not change. *)
Theorem normaliseRow_keeps_columns (row : InputRow) :
  NoDup (Js.keys row) →
  (∀ k, k ∈ Js.keys row → Js.get k (normaliseRow row) = Js.get k row)
  ∧ ("BaseName" ∉ Js.keys row →
     Js.get "BaseName" (normaliseRow row) = Js.Str "untitled")
  ∧ ("URL" ∉ Js.keys row → Js.get "URL" (normaliseRow row) = Js.Str "")
  ∧ ("CSSSelector" ∉ Js.keys row →
     Js.get "CSSSelector" (normaliseRow row) = Js.Undefined)
  ∧ ("XPathSelector" ∉ Js.keys row →
     Js.get "XPathSelector" (normaliseRow row) = Js.Undefined)
  ∧ URL (normaliseRow row) = URL row.
Proof.
  intros Hnd. unfold normaliseRow.
  assert (∀ k, k ∉ Js.keys row → Js.get k row = Js.Undefined) as Hmiss
    by (intros; by apply get_missing).
  repeat split.
  - intros k Hk. by rewrite get_spread, bool_decide_eq_true_2.
  - intros Hk. rewrite get_spread, bool_decide_eq_false_2 by done.
    unfold BaseName. rewrite (Hmiss _ Hk). reflexivity.
  - intros Hk. rewrite get_spread, bool_decide_eq_false_2 by done.
    unfold URL. rewrite (Hmiss _ Hk). reflexivity.
  - intros Hk. rewrite get_spread, bool_decide_eq_false_2 by done.
    unfold CSSSelector. rewrite (Hmiss _ Hk). reflexivity.
  - intros Hk. rewrite get_spread, bool_decide_eq_false_2 by done.
    unfold XPathSelector. rewrite (Hmiss _ Hk). reflexivity.
  - unfold URL at 1. rewrite get_spread by done. case_bool_decide as Hk; [done|].
    unfold URL. rewrite (Hmiss _ Hk). reflexivity.
Qed.

Lemma normaliseRow_keeps_columns_example :
  Js.get "BaseName" (normaliseRow [("URL", Js.Str "u1")]) = Js.Str "untitled"
  ∧ Js.get "BaseName" (normaliseRow [("BaseName", Js.Str ""); ("URL", Js.Str "u1")])
    = Js.Str "".
Proof.
  split.
  - apply (normaliseRow_keeps_columns [("URL", Js.Str "u1")]); compute_done.
  - destruct (normaliseRow_keeps_columns
                [("BaseName", Js.Str ""); ("URL", Js.Str "u1")])
      as [Hkept _]; [compute_done|].
    apply (Hkept "BaseName"). compute_done.
Defined.

(** ** Output table, continued *)

Section OutputColumns.

Implicit Types (rows : list InputRow) (hs : list string) (h : string).

Lemma add_header_NoDup hs h : NoDup hs → NoDup (add_header hs h).
Proof.
  intros Hnd. unfold add_header. case_bool_decide as Hin; [done|].
  apply NoDup_app. split; [done|]. split; [|apply NoDup_singleton].
  intros x Hx Hx'%list_elem_of_singleton. by subst.
Qed.

Lemma add_headers_NoDup hs (l : list string) :
  NoDup hs → NoDup (foldl add_header hs l).
Proof.
  revert hs. induction l as [|x l IH]; intros hs Hnd; [done|].
  cbn [foldl]. by apply IH, add_header_NoDup.
Qed.

Lemma finalHeaders_NoDup rows : NoDup (finalHeaders rows).
Proof.
  unfold finalHeaders. apply add_headers_NoDup.
  assert (∀ hs, NoDup hs →
            NoDup (foldl (λ allHeaders row,
                            foldl add_header allHeaders (Js.keys row)) hs rows))
    as Hgen.
  { induction rows as [|row rows IH]; intros hs Hnd; [done|].
    cbn [foldl]. by apply IH, add_headers_NoDup. }
  apply Hgen, NoDup_nil_2.
Qed.

Lemma outputRow_headers hs (m : ScrapeMap) (row : InputRow) :
  (outputRow hs m row).*1 = hs.
Proof.
  unfold outputRow.
  induction hs as [|h hs IH]; [done|]. rewrite !fmap_cons. cbn [fst].
  by f_equal.
Qed.

End OutputColumns.

(** X5. Every row of the output table has the same columns, in the same
    order and each once: the columns of the input rows in the order they
    are first met, then the result columns that no input row had; so the
    five result columns and every input column are always there. *)
Theorem output_rows_share_columns (inputRows : list InputRow) (m : ScrapeMap)
    (out : OutputRow) :
  out ∈ generateOutputCsv inputRows m →
  out.*1 = finalHeaders inputRows
  ∧ NoDup (finalHeaders inputRows)
  ∧ (∀ h, h ∈ finalHeaders inputRows ↔
          h ∈ RESULT_HEADERS ∨ ∃ row, row ∈ inputRows ∧ h ∈ Js.keys row).
Proof.
  unfold generateOutputCsv. intros (row & -> & _)%list_elem_of_fmap.
  split; [apply outputRow_headers|].
  split; [apply finalHeaders_NoDup|]. apply elem_of_finalHeaders.
Qed.

Lemma output_rows_share_columns_example :
  (outputRow (finalHeaders [Sample.rowA; Sample.row "D" ""]) ∅ Sample.rowA).*1
  = ["BaseName"; "URL"; "ScreenshotFile"; "LogoFile";
     "ScrapedData"; "Status"; "ErrorMessage"].
Proof.
  apply (output_rows_share_columns [Sample.rowA; Sample.row "D" ""] ∅
           (outputRow (finalHeaders [Sample.rowA; Sample.row "D" ""]) ∅
                      Sample.rowA)).
  left.
Defined.

(** X6. When the URL of a row has a result, the five result cells of its
    output row are the fields of that result, also when the input table
    has columns of the same names: the result is spread over the row. *)
Theorem result_columns_come_from_result (inputRows : list InputRow)
    (m : ScrapeMap) (i : nat) (row : InputRow) (r : ScrapeResult) :
  inputRows !! i = Some row → m !! URL row = Some r →
  ∃ out,
    generateOutputCsv inputRows m !! i = Some out
    ∧ cell "ScreenshotFile" out = ScreenshotFile r
    ∧ cell "LogoFile" out = LogoFile r
    ∧ cell "ScrapedData" out = ScrapedData r
    ∧ cell "Status" out = status_name (Status r)
    ∧ cell "ErrorMessage" out = ErrorMessage r.
Proof.
  intros Hi Hm. eexists. rewrite generateOutputCsv_lookup, Hi.
  split; [done|].
  repeat split;
    (rewrite (outputRow_found _ _ _ r);
     [done|done|apply result_header_final; set_solver|set_solver]).
Qed.

Lemma result_columns_come_from_result_example :
  ∃ out,
    generateOutputCsv
      [[("URL", Js.Str "u1"); ("Status", Js.Str "SKIPPED")]]
      {["u1" := mkScrapeResult "images/A.png" "" "{}" SUCCESS ""]} !! 0
    = Some out
    ∧ cell "ScreenshotFile" out = "images/A.png"
    ∧ cell "LogoFile" out = ""
    ∧ cell "ScrapedData" out = "{}"
    ∧ cell "Status" out = "SUCCESS"
    ∧ cell "ErrorMessage" out = "".
Proof.
  apply (result_columns_come_from_result
           [[("URL", Js.Str "u1"); ("Status", Js.Str "SKIPPED")]]
           {["u1" := mkScrapeResult "images/A.png" "" "{}" SUCCESS ""]}
           0 [("URL", Js.Str "u1"); ("Status", Js.Str "SKIPPED")]
           (mkScrapeResult "images/A.png" "" "{}" SUCCESS ""));
    reflexivity.
Defined.

(** X7. Mapping the results back to the rows neither adds nor removes a
    URL, and never touches the screenshot path, the logo path or the
    extracted data of a result: an entry is either left as it was or gets
    the status DUPLICATE and the note of a shared result; the entry of a
    URL that no row after the first has is left as it was. *)
Theorem mapResultsBack_keeps_artifacts (inputRows : list InputRow)
    (m : ScrapeMap) (u : string) :
  (mapResultsBack inputRows m !! u = None ↔ m !! u = None)
  ∧ (∀ r', mapResultsBack inputRows m !! u = Some r' →
       ∃ r, m !! u = Some r
            ∧ ScreenshotFile r' = ScreenshotFile r
            ∧ LogoFile r' = LogoFile r
            ∧ ScrapedData r' = ScrapedData r
            ∧ (r' = r
               ∨ Status r' = DUPLICATE ∧ ErrorMessage r' = DUPLICATE_NOTE))
  ∧ (u ∉ URL <$> tail inputRows → mapResultsBack inputRows m !! u = m !! u).
Proof.
  rewrite mapResultsBack_lookup. split; [|split].
  - case_bool_decide; [|done]. destruct (m !! u); naive_solver.
  - intros r'. case_bool_decide.
    + destruct (m !! u) as [r|]; [|done]. intros [= <-]. exists r.
      repeat split; try done. by right.
    + intros Hr. exists r'. repeat split; try done. by left.
  - intros Hu. by rewrite bool_decide_eq_false_2.
Qed.

Lemma mapResultsBack_keeps_artifacts_example :
  mapResultsBack [Sample.rowA; Sample.rowC]
    {["u1" := mkScrapeResult "images/A.png" "" "{}" SUCCESS ""]} !! "u1"
  = ({["u1" := mkScrapeResult "images/A.png" "" "{}" SUCCESS ""]} : ScrapeMap) !! "u1".
Proof.
  apply (mapResultsBack_keeps_artifacts [Sample.rowA; Sample.rowC]
           {["u1" := mkScrapeResult "images/A.png" "" "{}" SUCCESS ""]} "u1").
  compute_done.
Defined.

(** ** Scheduler, continued *)

Section SchedulerMore.

Context `{Path}.
Implicit Types (cfg : ScraperConfig) (browser : Browser) (rows : list InputRow)
  (sched : Schedule).

Lemma scrapeAll_lookup_is_Some cfg browser urlEntries sched (w i : nat) u row :
  (w, i) ∈ sched →
  1 ≤ w ≤ concurrency cfg `min` length urlEntries →
  urlEntries !! i = Some (u, row) →
  is_Some (scrapeAll cfg browser urlEntries sched !! u).
Proof.
  intros Hin Hw Hi. rewrite scrapeAll_list_to_map.
  apply not_eq_None_Some. intros Hnone%not_elem_of_list_to_map.
  apply Hnone. rewrite fmap_reverse, elem_of_reverse.
  apply list_elem_of_fmap.
  exists (u, (scrapeUrl cfg (Some browser) w u row).1). split; [done|].
  apply list_elem_of_omap. exists (w, i). split; [done|].
  unfold completedScrape. cbn [fst snd].
  rewrite bool_decide_eq_true_2 by done.
  unfold UniqueUrls, InputRow in *. by rewrite Hi.
Qed.

Lemma scrapeAll_no_worker cfg browser urlEntries sched :
  concurrency cfg `min` length urlEntries = 0 →
  scrapeAll cfg browser urlEntries sched = ∅.
Proof.
  intros Hpool. unfold scrapeAll.
  induction sched as [|c sched IH] using rev_ind; [done|].
  rewrite foldl_app. cbn [foldl]. rewrite IH.
  unfold completedScrape. rewrite Hpool.
  by rewrite bool_decide_eq_false_2 by lia.
Qed.

End SchedulerMore.

(** X8. The result map of a run holds only non-empty URLs of the input;
    and when every position of the work list is completed by a worker of
    the pool, every input row with a non-empty URL has a result, so that
    no such row falls to the missing-URL error. *)
Theorem complete_run_covers_every_url `{Path} cfg browser
    (inputRows : list InputRow) (sched : Schedule) :
  let urlEntries := collectUniqueUrls inputRows in
  let scrapeResults := scrapeAll cfg browser urlEntries sched in
  (∀ u r, scrapeResults !! u = Some r →
          u ≠ "" ∧ ∃ row, row ∈ inputRows ∧ URL row = u)
  ∧ ((∀ i : nat, i < length urlEntries →
        ∃ w, (w, i) ∈ sched
             ∧ 1 ≤ w ≤ concurrency cfg `min` length urlEntries) →
     ∀ row, row ∈ inputRows → URL row ≠ "" →
            is_Some (scrapeResults !! URL row)).
Proof.
  intros urlEntries scrapeResults. split.
  - intros u r (w & i & row & _ & Hi & _)%scrapeAll_lookup_Some.
    apply collectUniqueUrls_keys. apply list_elem_of_fmap.
    exists (u, row). split; [done|]. by eapply list_elem_of_lookup_2.
  - intros Hall row Hrow Hurl.
    assert (URL row ∈ urlEntries.*1) as Hkey.
    { apply collectUniqueUrls_keys. split; [done|]. by exists row. }
    apply list_elem_of_fmap in Hkey as ([u row0] & Hu & Hentry).
    cbn in Hu. subst u.
    apply list_elem_of_lookup in Hentry as [i Hi].
    destruct (Hall i (lookup_lt_Some _ _ _ Hi)) as (w & Hw & Hpool).
    by eapply scrapeAll_lookup_is_Some.
Qed.

Lemma complete_run_covers_every_url_example :
  is_Some (@scrapeAll Sample.plain_join Sample.config Sample.plain_browser
             (collectUniqueUrls [Sample.rowA; Sample.rowB; Sample.rowC])
             [(2, 1); (1, 0)] !! URL Sample.rowB).
Proof.
  apply (@complete_run_covers_every_url Sample.plain_join Sample.config
           Sample.plain_browser [Sample.rowA; Sample.rowB; Sample.rowC]
           [(2, 1); (1, 0)]).
  - intros i Hi. vm_compute in Hi.
    destruct i as [|[|i]]; [exists 1|exists 2|lia].
    + split; [right; left|compute_done].
    + split; [left|compute_done].
  - right. left.
  - done.
Defined.

(** X9. With a concurrency of 0 the pool has no worker: no URL is scraped,
    and a run that writes its table gives every row the status ERROR with
    the missing-URL message. *)
Theorem no_worker_scrapes_nothing `{Path} cfg host (table : list OutputRow) :
  concurrency cfg = 0 → start cfg host = Some table →
  Forall (λ out, cell "Status" out = "ERROR"
                 ∧ cell "ErrorMessage" out
                   = "Internal error: URL not found in results map.") table.
Proof.
  unfold start. intros Hzero Hstart.
  destruct (parseInputCsv (csvFile host)) as [[uniqueUrls inputRows]|]; [|done].
  destruct (imageDir host); [|done].
  destruct (launch host) as [browser|]; [|done].
  destruct (writeFile host); [|done].
  injection Hstart as <-.
  rewrite scrapeAll_no_worker by (rewrite Hzero; lia).
  unfold generateOutputCsv. apply Forall_fmap, Forall_forall.
  intros row _. cbn [compose].
  assert (mapResultsBack inputRows ∅ !! URL row = None) as Hnone
    by (by apply mapResultsBack_None).
  split.
  - rewrite outputRow_status, Hnone; [done|].
    apply result_header_final. set_solver.
  - apply outputRow_missing_message; [|done].
    apply result_header_final. set_solver.
Qed.

Lemma no_worker_scrapes_nothing_example :
  Forall (λ out, cell "Status" out = "ERROR"
                 ∧ cell "ErrorMessage" out
                   = "Internal error: URL not found in results map.")
    (default []
       (@start Sample.plain_join
          (mkScraperConfig "in.csv" "out" "images" (mkSelectors "" "") false 0 "")
          (Sample.host [Sample.rowA; Sample.rowC] [(1, 0); (1, 1)]))).
Proof.
  apply (@no_worker_scrapes_nothing Sample.plain_join
           (mkScraperConfig "in.csv" "out" "images" (mkSelectors "" "") false 0 "")
           (Sample.host [Sample.rowA; Sample.rowC] [(1, 0); (1, 1)]));
    reflexivity.
Defined.

(** ** File names *)

Section FileNames.

Implicit Types (c d : ascii) (s : string).

Lemma includes_replace_class (cls : ascii → bool) c d s :
  cls c = true → c ≠ d → Js.includes c (Js.replace_class cls d s) = false.
Proof.
  intros Hc Hd. induction s as [|a s IH]; cbn [Js.replace_class Js.includes];
    [done|].
  destruct (cls a) eqn:Ha.
  - by rewrite decide_False.
  - rewrite decide_False; [done|]. congruence.
Qed.

Lemma includes_trimStart c s :
  Js.includes c s = false → Js.includes c (Js.trimStart s) = false.
Proof.
  induction s as [|a s IH]; cbn [Js.trimStart Js.includes]; [done|].
  case_decide; [done|]. intros Hs. destruct (Ascii.is_space a); [by apply IH|].
  cbn [Js.includes]. by rewrite decide_False.
Qed.

Lemma includes_trimEnd c s :
  Js.includes c s = false → Js.includes c (Js.trimEnd s) = false.
Proof.
  induction s as [|a s IH]; cbn [Js.trimEnd Js.includes]; [done|].
  case_decide as Ha; [done|]. intros Hs. specialize (IH Hs).
  destruct (Js.trimEnd s) as [|b t].
  - destruct (Ascii.is_space a); [done|]. cbn [Js.includes].
    by rewrite decide_False.
  - cbn [Js.includes] in *. by rewrite decide_False.
Qed.

Lemma includes_trim c s :
  Js.includes c s = false → Js.includes c (Js.trim s) = false.
Proof. intros Hs. by apply includes_trimEnd, includes_trimStart. Qed.

End FileNames.

(** X10. The file-safe name of FileUtils.ts holds none of the characters
    it is there to remove (slash, backslash, colon, star, question mark,
    double quote, angle brackets, bar), whatever the base name. *)
Theorem file_safe_name_has_no_invalid_char (name : string) (c : ascii) :
  invalid_file_char c = true →
  Js.includes c (toFileSafeName name) = false.
Proof.
  intros Hc. unfold toFileSafeName. apply includes_trim.
  apply includes_replace_class; [done|]. intros ->. done.
Qed.

Lemma file_safe_name_has_no_invalid_char_example :
  Js.includes "/"%char (toFileSafeName " a/b:c ") = false.
Proof.
  apply (file_safe_name_has_no_invalid_char " a/b:c " "/"%char). reflexivity.
Defined.

(** X11. The relative path that [getImagePath] returns, the one written to
    the output table, never holds a backslash, whatever [path.join] gives
    on the platform. *)
Theorem relative_image_path_has_no_backslash `{Path}
    (baseDir imageSubFolder baseName : string) (type : ImageType) (index : nat) :
  Js.includes Json.backslash
    (getImagePath baseDir imageSubFolder baseName type index).2 = false.
Proof.
  unfold getImagePath. cbn [snd].
  apply includes_replace_class; [by apply bool_decide_eq_true_2|done].
Qed.

(** X12. The file-safe name of CsvUtils.ts is as long as the name and is
    made of lower-case letters, digits and underscores only; applying it
    twice changes nothing more. *)
Theorem csv_file_safe_name_is_plain (name : string) :
  String.length (CsvUtils.toFileSafeName name) = String.length name
  ∧ all_chars (λ c, bool_decide (48 ≤ nat_of_ascii c ≤ 57)
                    || bool_decide (97 ≤ nat_of_ascii c ≤ 122)
                    || bool_decide (c = "_"%char))
              (CsvUtils.toFileSafeName name) = true
  ∧ CsvUtils.toFileSafeName (CsvUtils.toFileSafeName name)
    = CsvUtils.toFileSafeName name.
Proof.
  unfold CsvUtils.toFileSafeName.
  assert (∀ c, let d := CsvUtils.to_lower
                          (if negb (CsvUtils.is_alnum c) then "_"%char else c) in
               (bool_decide (48 ≤ nat_of_ascii d ≤ 57)
                || bool_decide (97 ≤ nat_of_ascii d ≤ 122)
                || bool_decide (d = "_"%char)) = true
               ∧ CsvUtils.to_lower
                   (if negb (CsvUtils.is_alnum d) then "_"%char else d) = d)
    as Hchar.
  { intros [[] [] [] [] [] [] [] []]; vm_compute; done. }
  induction name as [|c name (IHlen & IHall & IHidem)]; [done|].
  cbn [Js.replace_class CsvUtils.toLowerCase String.length all_chars].
  destruct (Hchar c) as [Hc Hidem]. cbv zeta in Hc, Hidem.
  split; [by rewrite IHlen|]. split.
  - by rewrite Hc, IHall.
  - by rewrite Hidem, IHidem.
Qed.

(** ** Logo capture *)

Section LogoCapture.

Context `{Path}.
Variables (r : Routine) (log : string → M unit).
Hypothesis log_quiet : ∀ msg, quiet (within r) (λ _, True) (log msg).

Lemma findLogo_found visit selectors :
  r = CaptureLogo →
  quiet (within r) (λ found, found = logoFound visit selectors)
        (findLogo visit log selectors).
Proof using log_quiet.
  intros ->. induction selectors as [|selector rest IH];
    cbn [findLogo logoFound existsb].
  - by apply quiet_ret.
  - eapply quiet_bind with
      (p := λ found, found = match queryAll visit selector with
                             | Done n => bool_decide (0 < n)
                             | Fails _ => false
                             end).
    + destruct (queryAll visit selector) as [n|e].
      * eapply traced_try_catch with (p := λ o, o = Done (bool_decide (0 < n))).
        -- apply traced_await_bind; [done|].
           destruct (bool_decide (0 < n)); [|by apply traced_ret].
           eapply traced_quiet_bind; [apply log_quiet|]. intros _ _.
           by apply traced_ret.
        -- intros a ->. eauto.
        -- intros e [=].
      * eapply traced_try_catch with (p := λ o, o = Fails e).
        -- by apply traced_await_bind.
        -- intros a [=].
        -- intros e' _. by apply quiet_ret.
    + intros found ->.
      destruct (match queryAll visit selector with
                | Done n => bool_decide (0 < n)
                | Fails _ => false
                end); [by apply quiet_ret|apply IH].
Qed.

(** The logo capture never throws, and returns what [logoOutcome] says. *)
Lemma captureLogo_outcome visit baseName outputDir subFolder :
  r = CaptureLogo →
  quiet (within r)
        (λ a, a = logoOutcome visit baseName outputDir subFolder)
        (captureLogo visit baseName outputDir subFolder log).
Proof using log_quiet.
  intros Hr. unfold captureLogo, logoOutcome.
  eapply quiet_bind; [apply log_quiet|]. intros _ _.
  eapply quiet_bind; [by apply findLogo_found|]. intros found ->.
  subst r. destruct (logoFound visit LOGO_HEURISTICS_SELECTORS).
  2:{ eapply quiet_bind; [apply log_quiet|]. intros _ _. by apply quiet_ret. }
  assert (∀ e, quiet (within CaptureLogo) (λ a : option string, a = None)
                 (log ("WARN: Failed to capture logo screenshot. "
                       +:+ Js.error_to_string e);; mret None)) as Hhandler.
  { intros e. eapply quiet_bind; [apply log_quiet|].
    intros _ _. by apply quiet_ret. }
  destruct (ensureDir visit) as [[]|e].
  2:{ eapply traced_try_catch with (p := λ o, o = Fails e).
      - by apply traced_await_bind.
      - intros a [=].
      - intros e' _. apply Hhandler. }
  destruct (elementScreenshot visit) as [[]|e].
  2:{ eapply traced_try_catch with (p := λ o, o = Fails e).
      - apply traced_await_bind; [done|]. by apply traced_await_bind.
      - intros a [=].
      - intros e' _. apply Hhandler. }
  eapply traced_try_catch with (p := λ o, o = Done (Some _)).
  - apply traced_await_bind; [done|]. apply traced_await_bind; [done|].
    eapply traced_quiet_bind; [apply log_quiet|]. intros _ _.
    by apply traced_ret.
  - intros a ->. eauto.
  - intros e [=].
Qed.

End LogoCapture.

Lemma logoFound_spec (visit : Visit) (selectors : list string) :
  logoFound visit selectors = true ↔
  ∃ selector n, selector ∈ selectors
                ∧ queryAll visit selector = Done n ∧ 0 < n.
Proof.
  unfold logoFound. induction selectors as [|s rest IH]; cbn [existsb].
  - split; [done|]. by intros (? & ? & ?%elem_of_nil & _).
  - rewrite orb_true_iff, IH. split.
    + intros [Hs|(sel & n & ? & ? & ?)].
      * destruct (queryAll visit s) as [n|] eqn:Hq; [|done].
        apply bool_decide_eq_true in Hs. exists s, n. split; [left|done].
      * exists sel, n. split; [by right|done].
    + intros (sel & n & [->|?]%elem_of_cons & Hq & Hn).
      * left. rewrite Hq. by apply bool_decide_eq_true.
      * right. by exists sel, n.
Qed.

(** X13. The logo capture never throws and makes only its own calls. It
    returns the relative path of the logo file exactly when one of the
    heuristics finds an element, the image directory can be made and the
    element can be captured; in every other case it returns nothing. *)
Theorem capture_logo_is_best_effort `{Path} (visit : Visit)
    (baseName outputDir imageSubFolder : string) workerId row (f : Frame) :
  ∃ logo new,
    captureLogo visit baseName outputDir imageSubFolder
                (baseLog workerId row INFO) f
      = (Done logo, frame_add f new)
    ∧ Forall (within CaptureLogo) new
    ∧ (logo = None
       ∨ logo = Some (getImagePath outputDir imageSubFolder baseName
                                   logo_image 1).2)
    ∧ (is_Some logo ↔
       (∃ selector n, selector ∈ LOGO_HEURISTICS_SELECTORS
                      ∧ queryAll visit selector = Done n ∧ 0 < n)
       ∧ ensureDir visit = Done ()
       ∧ elementScreenshot visit = Done ()).
Proof.
  destruct (captureLogo_outcome CaptureLogo (baseLog workerId row INFO)
              (baseLog_quiet _ _ _ _) visit baseName outputDir imageSubFolder
              eq_refl f)
    as (o & new & Hrun & Hnew & (logo & -> & ->)).
  exists (logoOutcome visit baseName outputDir imageSubFolder), new.
  split; [done|]. split; [done|].
  unfold logoOutcome. rewrite <- logoFound_spec.
  destruct (logoFound visit LOGO_HEURISTICS_SELECTORS).
  - destruct (ensureDir visit) as [[]|], (elementScreenshot visit) as [[]|];
      (split; [by eauto|]); split; try (by intros [? ?]);
      try (by intros (_ & ? & ?)); eauto.
  - split; [by left|]. split; [by intros [? ?]|]. by intros ([=] & _).
Qed.

(** ** Selector extraction *)

Section Fields.

Implicit Types (o data : Js.Obj) (k : string) (v : Js.Value).

Lemma keys_set k v o :
  Js.keys (Js.set k v o) =
    if bool_decide (k ∈ Js.keys o) then Js.keys o else Js.keys o ++ [k].
Proof.
  unfold Js.keys. induction o as [|[k0 v0] o IH]; cbn [Js.set].
  - by rewrite bool_decide_eq_false_2 by apply not_elem_of_nil.
  - destruct (decide (k0 = k)) as [->|Hne].
    + rewrite fmap_cons. cbn [fst].
      rewrite bool_decide_eq_true_2; [done|left].
    + rewrite !fmap_cons, IH. cbn [fst].
      rewrite (bool_decide_ext (k ∈ k0 :: o.*1) (k ∈ o.*1)).
      * by case_bool_decide.
      * rewrite elem_of_cons. naive_solver.
Qed.

Lemma elem_of_set k v o kv :
  kv ∈ Js.set k v o → kv = (k, v) ∨ kv ∈ o.
Proof.
  induction o as [|[k0 v0] o IH]; cbn [Js.set].
  - intros ?%list_elem_of_singleton. by left.
  - case_decide.
    + intros [->|?]%elem_of_cons; [by left|]. right. by right.
    + intros [->|Hin]%elem_of_cons; [right; left|].
      destruct (IH Hin); [by left|]. right. by right.
Qed.

Lemma quiet_for_fold_inv {A B} allowed (inv : B → Prop)
    (body : B → A → M B) (acc : B) (xs : list A) :
  inv acc →
  (∀ acc x, x ∈ xs → inv acc → quiet allowed inv (body acc x)) →
  quiet allowed inv (for_fold body acc xs).
Proof.
  revert acc. induction xs as [|x xs IH]; intros acc Hacc Hbody;
    cbn [for_fold].
  - by apply quiet_ret.
  - eapply quiet_bind; [apply Hbody; [left|done]|].
    intros acc' Hacc'. apply IH; [done|].
    intros acc'' y Hy. apply Hbody. by right.
Qed.

End Fields.

(** X14. The selector extraction never throws and makes only its own
    calls; the object it returns has each key once, every key is the name
    of a field that the selector specs ask for, and no value is
    [undefined]: a field is a text, or null when its lookup threw. *)
Theorem selector_extraction_fields cfg (visit : Visit) workerId row (f : Frame) :
  ∃ data new,
    scrapeCustomData cfg visit row (baseLog workerId row) f
      = (Done data, frame_add f new)
    ∧ Forall (within ScrapeCustomData) new
    ∧ NoDup (Js.keys data)
    ∧ (∀ k, k ∈ Js.keys data → k ∈ fieldNames cfg row)
    ∧ (∀ k v, (k, v) ∈ data → v ≠ Js.Undefined).
Proof.
  pose (inv := λ data : Js.Obj,
          NoDup (Js.keys data)
          ∧ (∀ k, k ∈ Js.keys data → k ∈ fieldNames cfg row)
          ∧ (∀ k v, (k, v) ∈ data → v ≠ Js.Undefined)).
  assert (quiet (within ScrapeCustomData) inv
            (scrapeCustomData cfg visit row (baseLog workerId row))) as Hq.
  { unfold scrapeCustomData. apply quiet_for_fold_inv.
    { split; [apply NoDup_nil_2|].
      split; [by intros k ?%elem_of_nil|by intros k v ?%elem_of_nil]. }
    intros data entry Hentry (Hnd & Hkeys & Hvals). unfold scrapeField.
    destruct (parseField entry.2) as [[name query]|] eqn:Hfield;
      [|by apply quiet_ret].
    assert (name ∈ fieldNames cfg row) as Hname.
    { unfold fieldNames. apply list_elem_of_omap. exists entry.
      split; [done|]. by rewrite Hfield. }
    assert (∀ v, v ≠ Js.Undefined → inv (Js.set name v data)) as Hset.
    { intros v Hv. split; [|split].
      - rewrite keys_set. case_bool_decide as Hin; [done|].
        apply NoDup_app. split; [done|]. split; [|apply NoDup_singleton].
        intros x Hx Hx'%list_elem_of_singleton. by subst.
      - intros k. rewrite keys_set. case_bool_decide; [by apply Hkeys|].
        intros [?| ->%list_elem_of_singleton]%elem_of_app; [by apply Hkeys|done].
      - intros k v' [[= -> ->]|?]%elem_of_set; [done|]. by eapply Hvals. }
    apply quiet_try_catch with (p := λ o, ∀ a, o = Done a → inv a).
    - apply traced_await_bind; [done|].
      destruct (textContent visit entry.1 query) as [text|e]; [|done].
      destruct (Js.truthy (Js.or_empty text)).
      + apply traced_ret. intros a [= <-]. by apply Hset.
      + eapply traced_quiet_bind; [apply baseLog_quiet|]. intros _ _.
        apply traced_ret. by intros a [= <-].
    - intros a Ha. by apply Ha.
    - intros e. eapply quiet_bind; [apply baseLog_quiet|]. intros _ _.
      apply quiet_ret. by apply Hset. }
  destruct (Hq f) as (o & new & Hrun & Hnew & (data & -> & Hnd & Hkeys & Hvals)).
  by exists data, new.
Qed.

(** ** Popup bypass *)

Section Bypass.

Variables (allowed : Event → Prop) (log : string → M unit).
Hypothesis log_quiet : ∀ msg, quiet allowed (λ _, True) (log msg).

(** One heuristic, for any set of allowed events that holds the calls it
    makes under the conditions in which it makes them. *)
Lemma bypassOne_allowed visit selector :
  allowed (BoundingBox selector) →
  allowed (TagName selector) →
  (clickable visit selector →
   allowed (Click selector) ∧ allowed WaitForTimeout) →
  (removable visit selector → allowed (Remove selector)) →
  quiet allowed (λ _, True) (bypassOne visit log selector).
Proof using log_quiet.
  intros Hbox Htag Hclick Hremove. unfold bypassOne.
  apply quiet_try_catch with (p := λ _, True);
    [|done|intros; by apply quiet_ret].
  apply traced_await_bind; [done|].
  destruct (boundingBox (popup visit selector)) as [[]|e] eqn:Hb;
    [|by apply traced_ret|done].
  apply traced_await_bind; [done|].
  destruct (tagName (popup visit selector)) as [tag|e] eqn:Ht; [|done].
  destruct (bool_decide (tag = "BUTTON") || bool_decide (tag = "A")
            || Json.includes_text "text=" selector) eqn:Hc.
  - destruct Hclick as [Hcl Hwait].
    { split; [done|]. exists tag. split; [done|].
      apply orb_true_iff in Hc as [Hc|Hc]; [|by right; right].
      apply orb_true_iff in Hc as [Hc|Hc]; apply bool_decide_eq_true in Hc;
        [by left|by right; left]. }
    eapply traced_quiet_bind; [apply log_quiet|]. intros _ _.
    apply traced_await_bind; [done|].
    destruct (click (popup visit selector)); [|done].
    eapply traced_anyhow. by apply traced_await.
  - destruct (bool_decide (tag = "DIV") || bool_decide (tag = "SECTION")) eqn:Hd;
      [|by apply traced_ret].
    eapply traced_quiet_bind; [apply log_quiet|]. intros _ _.
    eapply traced_anyhow. apply traced_await. apply Hremove.
    split; [done|]. exists tag. split; [done|].
    apply orb_false_iff in Hc as [_ Hc]. split; [|done].
    apply orb_true_iff in Hd as [Hd|Hd]; apply bool_decide_eq_true in Hd;
      [by left|by right].
Qed.

Lemma quiet_for_each_in {A} (body : A → M unit) (xs : list A) :
  (∀ x, x ∈ xs → quiet allowed (λ _, True) (body x)) →
  quiet allowed (λ _, True) (for_each body xs).
Proof using Type.
  induction xs as [|x xs IH]; intros Hbody; cbn [for_each].
  - by apply quiet_ret.
  - eapply quiet_bind; [apply Hbody; left|]. intros _ _.
    apply IH. intros y Hy. apply Hbody. by right.
Qed.

End Bypass.

(** X15. The popup bypass never throws and makes only its own calls. It
    clicks an element only for one of its heuristics whose element has a
    bounding box and is a button or a link, or whose selector is a text
    selector; and it removes an element only when the element has a
    bounding box, is a [DIV] or a [SECTION], and is not handled by a
    click. *)
Theorem bypass_acts_by_its_rules (visit : Visit) workerId row (f : Frame) :
  ∃ new,
    attemptBypass visit (baseLog workerId row INFO) f
      = (Done (), frame_add f new)
    ∧ Forall (within AttemptBypass) new
    ∧ (∀ s, Click s ∈ new → s ∈ COMMON_POPUP_SELECTORS ∧ clickable visit s)
    ∧ (∀ s, Remove s ∈ new → s ∈ COMMON_POPUP_SELECTORS ∧ removable visit s).
Proof.
  pose (allowed := λ ev,
          within AttemptBypass ev
          ∧ (∀ s, ev = Click s → s ∈ COMMON_POPUP_SELECTORS ∧ clickable visit s)
          ∧ (∀ s, ev = Remove s → s ∈ COMMON_POPUP_SELECTORS ∧ removable visit s)).
  assert (∀ msg, quiet allowed (λ _, True) (baseLog workerId row INFO msg))
    as Hlog.
  { intros msg. unfold baseLog. apply quiet_emit. by repeat split. }
  assert (quiet allowed (λ _, True)
            (attemptBypass visit (baseLog workerId row INFO))) as Hq.
  { unfold attemptBypass.
    eapply quiet_bind; [apply Hlog|]. intros _ _.
    eapply quiet_bind; [|intros _ _; apply Hlog].
    apply quiet_for_each_in. intros selector Hsel.
    apply bypassOne_allowed; [done|by repeat split..| |].
    - intros Hc. split; [|by repeat split].
      split; [done|]. split; [by intros s [= <-]|done].
    - intros Hr. split; [done|]. split; [done|]. by intros s [= <-]. }
  destruct (Hq f) as (o & new & Hrun & Hnew & (a & -> & _)). destruct a.
  exists new. split; [done|]. rewrite Forall_forall in Hnew.
  split; [apply Forall_forall; intros ev Hev; by apply Hnew|].
  split; intros s Hs; by apply (Hnew _ Hs).
Qed.

Lemma probed_app tr1 tr2 : probed (tr1 ++ tr2) = probed tr1 ++ probed tr2.
Proof. apply omap_app. Qed.

Lemma probed_none tr : Forall not_a_probe tr → probed tr = [].
Proof.
  induction 1 as [|ev tr Hev _ IH]; [done|].
  destruct ev; try exact IH. by destruct (Hev selector).
Qed.

Lemma bypassOne_probes visit workerId row selector (f : Frame) :
  ∃ rest,
    bypassOne visit (baseLog workerId row INFO) selector f
      = (Done (), frame_add f (BoundingBox selector :: rest))
    ∧ probed rest = [].
Proof.
  assert (∀ msg, quiet not_a_probe (λ _, True) (baseLog workerId row INFO msg))
    as Hlog by (intros msg; by apply quiet_emit).
  unfold bypassOne. cbv zeta.
  lazymatch goal with
  | |- ∃ _, try_catch (await ?ev ?answer ≫= ?k) ?handler f = _ ∧ _ =>
      destruct (try_catch_await_head not_a_probe ev answer k handler f)
        as ([] & rest & -> & Hrest)
  end.
  - intros box _. destruct box; [|by apply traced_ret].
    repeat anyhow_step Hlog.
  - intros e. by apply quiet_ret.
  - exists rest. split; [done|]. by apply probed_none.
Qed.

Lemma for_each_probes visit workerId row selectors (f : Frame) :
  ∃ new,
    for_each (bypassOne visit (baseLog workerId row INFO)) selectors f
      = (Done (), frame_add f new)
    ∧ probed new = selectors.
Proof.
  revert f. induction selectors as [|selector selectors IH]; intros f;
    cbn [for_each].
  - exists []. by rewrite frame_add_nil.
  - rewrite run_bind.
    destruct (bypassOne_probes visit workerId row selector f)
      as (rest & -> & Hrest).
    destruct (IH (frame_add f (BoundingBox selector :: rest)))
      as (new & -> & Hnew).
    exists ((BoundingBox selector :: rest) ++ new).
    rewrite frame_add_add. split; [done|].
    rewrite probed_app, Hnew.
    change (probed (BoundingBox selector :: rest))
      with (selector :: probed rest).
    by rewrite Hrest.
Qed.

(** X16. The popup bypass probes every one of its heuristics exactly
    once, in the listed order: whatever one heuristic finds or throws, the
    next ones are still tried. *)
Theorem bypass_probes_every_heuristic (visit : Visit) workerId row (f : Frame) :
  ∃ new,
    attemptBypass visit (baseLog workerId row INFO) f
      = (Done (), frame_add f new)
    ∧ probed new = COMMON_POPUP_SELECTORS.
Proof.
  unfold attemptBypass. rewrite run_bind.
  destruct (run_baseLog workerId row INFO
              "Attempting to bypass common popups and overlays..." f)
    as (line & ->).
  rewrite run_bind.
  destruct (for_each_probes visit workerId row COMMON_POPUP_SELECTORS
              (frame_add f [Logged INFO line])) as (new & -> & Hnew).
  destruct (run_baseLog workerId row INFO "Popup bypass attempts finished."
              (frame_add (frame_add f [Logged INFO line]) new))
    as (line' & ->).
  exists ([Logged INFO line] ++ new ++ [Logged INFO line']).
  rewrite !frame_add_add. split; [done|].
  rewrite !probed_app, Hnew. unfold probed. cbn [omap]. by rewrite app_nil_r.
Qed.

(** ** The AI request *)

Lemma sentHtml_app tr1 tr2 : sentHtml (tr1 ++ tr2) = sentHtml tr1 ++ sentHtml tr2.
Proof. apply omap_app. Qed.

Lemma sentHtml_none tr : Forall not_a_request tr → sentHtml tr = [].
Proof.
  induction 1 as [|ev tr Hev _ IH]; [done|].
  destruct ev; try exact IH. by destruct (Hev html).
Qed.

Lemma length_substring0 n s : String.length (Js.substring0 n s) ≤ n.
Proof.
  revert s. induction n as [|n IH]; intros [|c s]; cbn; try lia.
  specialize (IH s). lia.
Qed.

(** X17. The AI call never throws. Without an API key it reads nothing
    from the page and sends nothing: it writes one log line. With a key it
    sends at most one request, only when the page's HTML could be read, and
    the HTML it sends is the first 50000 characters of the page's HTML. *)
Theorem ai_request_is_bounded (visit : Visit) aiApiKey workerId row (f : Frame) :
  ∃ a new,
    aiSmartScrape visit aiApiKey (baseLog workerId row INFO) f
      = (Done a, frame_add f new)
    ∧ sentHtml new =
        (if Js.truthy aiApiKey then
           match outerHTML visit with
           | Done html =>
               [Js.substring0 (String.length html `min` HTML_BUDGET) html]
           | Fails _ => []
           end
         else [])
    ∧ (∀ html, html ∈ sentHtml new → String.length html ≤ HTML_BUDGET)
    ∧ (Js.truthy aiApiKey = false → ∃ line, new = [Logged INFO line]).
Proof.
  assert (∀ msg, quiet not_a_request (λ _, True) (baseLog workerId row INFO msg))
    as Hlog by (intros msg; by apply quiet_emit).
  cut (∃ a new,
         aiSmartScrape visit aiApiKey (baseLog workerId row INFO) f
           = (Done a, frame_add f new)
         ∧ sentHtml new =
             (if Js.truthy aiApiKey then
                match outerHTML visit with
                | Done html =>
                    [Js.substring0 (String.length html `min` HTML_BUDGET) html]
                | Fails _ => []
                end
              else [])
         ∧ (Js.truthy aiApiKey = false → ∃ line, new = [Logged INFO line])).
  { intros (a & new & Hrun & Hsent & Hkey). exists a, new.
    split; [done|]. split; [done|]. split; [|done].
    intros html. rewrite Hsent.
    destruct (Js.truthy aiApiKey); [|by intros ?%elem_of_nil].
    destruct (outerHTML visit) as [page|e]; [|by intros ?%elem_of_nil].
    intros ->%list_elem_of_singleton.
    etrans; [apply length_substring0|]. apply Nat.le_min_r. }
  unfold aiSmartScrape. destruct (Js.truthy aiApiKey) eqn:Hkey; cbn [negb].
  2:{ rewrite run_bind.
      destruct (run_baseLog workerId row INFO
                  "WARN: AI Smart Scrape skipped. AI_API_KEY is not configured." f)
        as (line & ->).
      exists None, [Logged INFO line]. split; [done|]. split; [done|].
      intros _. by exists line. }
  rewrite run_bind. unfold try_catch at 1. rewrite run_bind, run_await.
  destruct (outerHTML visit) as [html|e].
  - cbv zeta. set (pageHtml := Js.substring0 _ html).
    rewrite run_bind.
    destruct (run_baseLog workerId row INFO
                ("Fetched " +:+ pretty (String.length pageHtml)
                 +:+ " characters of HTML for AI analysis.")
                (frame_add f [OuterHtml])) as (line & ->).
    rewrite run_ret.
    lazymatch goal with
    | |- ∃ _ _, try_catch (await ?ev ?answer ≫= ?k) ?handler ?f0 = _ ∧ _ =>
        destruct (try_catch_await_head not_a_request ev answer k handler f0)
          as (a & rest & -> & Hrest)
    end.
    + intros response _. repeat anyhow_step Hlog.
    + intros error. eapply quiet_bind; [apply Hlog|]. intros _ _.
      by apply quiet_ret.
    + exists a, ([OuterHtml] ++ [Logged INFO line] ++ Fetch pageHtml :: rest).
      rewrite !frame_add_add. split; [done|]. split; [|done].
      rewrite !sentHtml_app.
      change (sentHtml (Fetch pageHtml :: rest)) with (pageHtml :: sentHtml rest).
      by rewrite (sentHtml_none rest).
  - rewrite run_bind.
    destruct (run_baseLog workerId row INFO
                "ERROR: Could not get page HTML for AI analysis."
                (frame_add f [OuterHtml])) as (line & ->).
    exists None, ([OuterHtml] ++ [Logged INFO line]).
    rewrite !frame_add_add. by split.
Qed.

(** ** The stages of a scrape *)

(** Bounds the stage of every event of a trace made of known pieces. *)
Ltac stage_bound :=
  rewrite ?Forall_app; repeat split;
  first [ by apply Forall_nil
        | apply Forall_singleton; cbn; lia
        | eapply Forall_impl; [eassumption|]; cbn; intros; lia ].

Section Stages.

Context `{Path}.
Implicit Types (cfg : ScraperConfig) (browser : Browser) (row : InputRow).

Lemma within_stage r ev : within r ev → stage ev ≤ 3.
Proof using Type.
  destruct ev as [| r0 | | | | | | | | | | | | | | | | |]; try destruct r0;
    cbn; intros Hw; try lia; discriminate.
Qed.

Lemma bypass_stage ev : within AttemptBypass ev → stage ev ≤ 2.
Proof using Type.
  destruct ev as [| r0 | | | | | | | | | | | | | | | | |]; try destruct r0;
    cbn; intros Hw; try lia; discriminate.
Qed.

Lemma baseLog_stage n workerId row lvl msg :
  quiet (λ ev, stage ev ≤ n) (λ _, True) (baseLog workerId row lvl msg).
Proof using Type. apply quiet_emit. cbn. lia. Qed.

Lemma extraction_stage cfg visit row before after ext :
  extraction cfg visit row before after ext → Forall (λ ev, stage ev ≤ 3) ext.
Proof using Type.
  unfold extraction. destruct (selectorsProvided cfg row).
  - intros (_ & Hext & _). eapply Forall_impl; [exact Hext|]. apply within_stage.
  - destruct (useAISmartScrape cfg).
    + intros (_ & Hext & _). eapply Forall_impl; [exact Hext|].
      apply within_stage.
    + by intros (-> & _).
Qed.

(** The [try] block, stage by stage. *)
Lemma scrapeUrl_try_stages cfg browser workerId url row :
  ∃ o fr,
    scrapeUrl_try cfg (Some browser) workerId url row
                  (mkFrame [] INITIAL_RESULT false) = (o, fr)
    ∧ Forall (λ ev, stage ev ≤ stagesPassed (Some browser) url) (events fr)
    ∧ page fr = pageOpened (Some browser) url
    ∧ match fatal_failure (Some browser) url row with
      | Some e => o = Fails e ∧ result fr = INITIAL_RESULT
      | None =>
          o = Done ()
          ∧ ∃ baseName,
              BaseName row = Js.Str baseName
              ∧ ScreenshotFile (result fr) =
                  (getImagePath (outputDirPath cfg) (imageSubFolder cfg)
                                baseName screenshot_image 1).2
              ∧ LogoFile (result fr) =
                  default "" (logoOutcome (browser url) baseName
                                          (outputDirPath cfg) (imageSubFolder cfg))
              ∧ Status (result fr) = SUCCESS
      end.
Proof using Type.
  unfold scrapeUrl_try, fatal_failure, stagesPassed, pageOpened.
  run_quiet (baseLog_stage 0 workerId row INFO ("Starting URL: " +:+ url)).
  rewrite run_bind, run_await.
  destruct (newPage (browser url)) as [[]|e]; cbn beta iota.
  2:{ eexists _, _. split; [reflexivity|].
      cbn [events result page frame_add]. split; [|done]. stage_bound. }
  rewrite run_bind. unfold page_opened. cbn beta iota.
  rewrite run_bind, run_await.
  destruct (goto (browser url)) as [[]|e]; cbn beta iota.
  2:{ eexists _, _. split; [reflexivity|].
      cbn [events result page frame_add]. split; [|done]. stage_bound. }
  rewrite run_bind.
  edestruct (quiet_try_catch (λ ev, stage ev ≤ 2) (λ _, True) (λ _, True)
               (await WaitNetworkIdle (networkIdle (browser url)))
               (λ _, baseLog workerId row WARN
                       "Page network idle timeout reached. Proceeding."))
    as (o & new1 & Heq & Hnew1 & (a1 & -> & _)).
  { eapply traced_anyhow. apply traced_await. cbn. lia. }
  { done. }
  { intros e. apply baseLog_stage. }
  rewrite Heq; clear Heq; cbn beta iota.
  rewrite run_bind.
  edestruct (quiet_allowed (within AttemptBypass) (λ ev, stage ev ≤ 2)
               (λ _, True)
               (call AttemptBypass
                  (attemptBypass (browser url) (baseLog workerId row INFO))))
    as (o & new2 & Heq & Hnew2 & (a2 & -> & _)).
  { apply bypass_stage. }
  { apply call_quiet. apply attemptBypass_quiet; [|done].
    intros msg. apply baseLog_quiet. }
  rewrite Heq; clear Heq; cbn beta iota.
  rewrite run_bind, run_answered.
  destruct (receiver "replace" (BaseName row)) as [baseName|e] eqn:Hname;
    cbn beta iota.
  2:{ eexists _, _. split; [reflexivity|].
      cbn [events result page frame_add]. split; [|done].
      destruct (screenshot (browser url)); stage_bound. }
  assert (BaseName row = Js.Str baseName) as Htext
    by (destruct (BaseName row); cbn in Hname; congruence).
  rewrite run_bind, run_await.
  destruct (screenshot (browser url)) as [[]|e]; cbn beta iota.
  2:{ eexists _, _. split; [reflexivity|].
      cbn [events result page frame_add]. split; [|done]. stage_bound. }
  run_quiet (baseLog_stage 0 workerId row INFO
               ("Screenshot captured: "
                +:+ (getImagePath (outputDirPath cfg) (imageSubFolder cfg)
                                  baseName screenshot_image 1).2)).
  rewrite run_bind, run_update. cbn beta iota.
  rewrite run_bind.
  edestruct (call_quiet CaptureLogo
               (λ a, a = logoOutcome (browser url) baseName
                                     (outputDirPath cfg) (imageSubFolder cfg))
               (captureLogo (browser url) baseName (outputDirPath cfg)
                            (imageSubFolder cfg) (baseLog workerId row INFO)))
    as (o & new4 & Heq & Hnew4 & (logo & -> & ->)).
  { apply captureLogo_outcome; [|done]. intros msg. apply baseLog_quiet. }
  rewrite Heq; clear Heq; cbn beta iota.
  rewrite run_bind, run_update. cbn beta iota.
  rewrite run_bind.
  edestruct (extractData_run cfg (browser url) workerId row)
    as (ext & after & Heq & Hext).
  rewrite Heq; clear Heq; cbn beta iota.
  rewrite run_bind, !run_update. cbn beta iota.
  cbn [events result page frame_add with_ScreenshotFile with_LogoFile
       with_ScrapedData with_Status with_ErrorMessage
       ScreenshotFile LogoFile ScrapedData Status ErrorMessage INITIAL_RESULT]
    in *.
  eexists _, _. split; [reflexivity|].
  cbn [events result page ScreenshotFile LogoFile Status].
  split; [|split; [done|]; split; [done|]; by exists baseName].
  apply extraction_stage in Hext.
  assert (Forall (λ ev, stage ev ≤ 3) new4) as Hlogo
    by (eapply Forall_impl; [exact Hnew4|]; apply within_stage).
  clear Hnew4. stage_bound.
Qed.

(** A whole scrape: the calls of the stages it reached, then the closing
    of the page if one was opened. *)
Lemma scrapeUrl_stages cfg (browser : option Browser) workerId url row :
  ∃ r body,
    scrapeUrl cfg browser workerId url row
      = (r, body ++ (if pageOpened browser url then [ClosePage] else []))
    ∧ Forall (λ ev, stage ev ≤ stagesPassed browser url) body
    ∧ match fatal_failure browser url row with
      | Some e => r = mkScrapeResult "" "" "{}" ERROR (Js.message e)
      | None =>
          ∃ b baseName, browser = Some b
          ∧ BaseName row = Js.Str baseName
          ∧ ScreenshotFile r =
              (getImagePath (outputDirPath cfg) (imageSubFolder cfg)
                            baseName screenshot_image 1).2
          ∧ LogoFile r =
              default "" (logoOutcome (b url) baseName
                                      (outputDirPath cfg) (imageSubFolder cfg))
          ∧ Status r = SUCCESS
      end.
Proof using Type.
  destruct browser as [b|].
  - destruct (scrapeUrl_try_stages cfg b workerId url row)
      as (o & fr & Heq & Hev & Hpage & Hcase).
    unfold scrapeUrl. rewrite run_bind. unfold try_catch. rewrite Heq.
    destruct (fatal_failure (Some b) url row) as [e|].
    + destruct Hcase as (-> & Hres). unfold scrapeUrl_catch.
      rewrite run_bind.
      edestruct (run_baseLog workerId row ERROR_LEVEL) as (line & ->).
      cbn beta iota. rewrite run_bind, !run_update. cbn beta iota.
      unfold scrapeUrl_finally.
      cbn [events result page frame_add]. rewrite Hres, Hpage.
      exists (mkScrapeResult "" "" "{}" ERROR (Js.message e)),
             (events fr ++ [Logged ERROR_LEVEL line]).
      split; [|split; [|done]].
      * destruct (pageOpened (Some b) url); [by rewrite run_emit|].
        cbn [events result frame_add snd mret M_ret ret].
        by rewrite app_nil_r.
      * apply Forall_app. split; [done|]. apply Forall_singleton. cbn. lia.
    + destruct Hcase as (-> & baseName & Hname & Hss & Hlogo & Hst).
      cbn beta iota. unfold scrapeUrl_finally. rewrite Hpage.
      exists (result fr), (events fr).
      split; [|split; [done|by exists b, baseName]].
      destruct (pageOpened (Some b) url); [by rewrite run_emit|].
      cbn [events result frame_add snd mret M_ret ret].
      by rewrite app_nil_r.
  - unfold scrapeUrl, scrapeUrl_try, scrapeUrl_catch, try_catch.
    rewrite run_bind.
    change (throw (Js.new_Error "Browser is not initialized.")
                  (mkFrame [] INITIAL_RESULT false))
      with (@Fails unit (Js.new_Error "Browser is not initialized."),
            mkFrame [] INITIAL_RESULT false).
    cbn beta iota. rewrite run_bind.
    edestruct (run_baseLog workerId row ERROR_LEVEL) as (line & ->).
    cbn beta iota. rewrite run_bind, !run_update. cbn beta iota.
    exists (mkScrapeResult "" "" "{}" ERROR "Browser is not initialized."),
           [Logged ERROR_LEVEL line].
    split; [done|]. split; [|done]. apply Forall_singleton. cbn. lia.
Qed.

End Stages.

Lemma stagesPassed_le (browser : option Browser) url :
  stagesPassed browser url ≤ 3.
Proof.
  unfold stagesPassed. destruct browser as [b|]; [|lia].
  destruct (newPage (b url)), (goto (b url)), (screenshot (b url)); lia.
Qed.

(** X18. A scrape closes its page exactly when it opened one, and closing
    it is the last call it makes: whatever fails after the page is opened,
    the page is released, once; and when no page could be opened, none is
    closed. *)
Theorem page_is_closed_when_opened `{Path} cfg (browser : option Browser)
    workerId url row :
  ∃ body,
    (scrapeUrl cfg browser workerId url row).2
      = body ++ (if pageOpened browser url then [ClosePage] else [])
    ∧ ClosePage ∉ body.
Proof.
  destruct (scrapeUrl_stages cfg browser workerId url row)
    as (r & body & -> & Hbody & _).
  exists body. split; [done|]. intros Hin.
  rewrite Forall_forall in Hbody. specialize (Hbody _ Hin).
  pose proof (stagesPassed_le browser url). cbn in Hbody. lia.
Qed.


(** X20. The artifacts of a scrape. A scrape that ends in a fatal failure
    (no browser handle, the page not opened, the navigation, a [BaseName]
    cell that is not a text, the screenshot) returns no screenshot path,
    no logo path and the empty data object, with the failure's message. A
    scrape without a fatal failure has a text as [BaseName] and returns the
    relative path of its screenshot, and as logo path what the logo
    capture came to, the empty text when it captured nothing. *)
Theorem scrape_artifacts `{Path} cfg (browser : option Browser)
    workerId url row :
  let r := (scrapeUrl cfg browser workerId url row).1 in
  match fatal_failure browser url row with
  | Some e => r = mkScrapeResult "" "" "{}" ERROR (Js.message e)
  | None =>
      ∃ b baseName, browser = Some b
      ∧ BaseName row = Js.Str baseName
      ∧ ScreenshotFile r =
          (getImagePath (outputDirPath cfg) (imageSubFolder cfg)
                        baseName screenshot_image 1).2
      ∧ LogoFile r =
          default "" (logoOutcome (b url) baseName
                                  (outputDirPath cfg) (imageSubFolder cfg))
      ∧ Status r = SUCCESS
  end.
Proof.
  destruct (scrapeUrl_stages cfg browser workerId url row)
    as (r & body & -> & _ & Hr).
  exact Hr.
Qed.
